(** * sto-cargo-search: the search engine, the classifier and the
      de-duplicating collection loop of [src/sto_cargo_search/cli.py]

    The development follows the Python source function by function:
    - Python's string primitives used by the source ([str.lower],
      [str.startswith], [in], [str.replace], [re.sub] with word boundaries);
    - JSON values and records as [json.load] returns them;
    - the three AST classes [SearchTerm], [BinaryOperation], [NotOperation]
      and their [evaluate] methods;
    - the pyparsing grammar built by [parse_search_expression];
    - [detect_format];
    - the control flow of [main] up to the hand-over to the printing code.

    Text is ASCII: [lower] and the character classes are the ASCII
    restrictions of Python's Unicode-aware ones.  JSON numbers are
    integers. *)

From Stdlib Require Import String Ascii List ZArith Lia Bool DecimalString.
#[local] Set Warnings "-register-all".
Import ListNotations.
Open Scope string_scope.

(** ** Python string primitives *)

Module PyStr.

Definition in_range (lo hi : nat) (c : ascii) : bool :=
  let n := nat_of_ascii c in Nat.leb lo n && Nat.leb n hi.

Definition is_upper (c : ascii) : bool := in_range 65 90 c.
Definition is_lower (c : ascii) : bool := in_range 97 122 c.
Definition is_digit (c : ascii) : bool := in_range 48 57 c.

(** [string.ascii_letters + string.digits], pyparsing's [alphanums]. *)
Definition is_alphanum (c : ascii) : bool :=
  is_upper c || is_lower c || is_digit c.

(** The class [\w] of [re], on ASCII text. *)
Definition is_word_char (c : ascii) : bool :=
  is_alphanum c || Ascii.eqb c "_"%char.

Definition lower_char (c : ascii) : ascii :=
  if is_upper c then ascii_of_nat (nat_of_ascii c + 32) else c.

(** [s.lower()] *)
Fixpoint lower (s : string) : string :=
  match s with
  | EmptyString => EmptyString
  | String c r => String (lower_char c) (lower r)
  end.

(** [s.startswith(p)] *)
Definition startswith (s p : string) : bool := String.prefix p s.

(** [needle in hay] on strings. *)
Fixpoint contains (needle hay : string) : bool :=
  if String.prefix needle hay then true
  else match hay with
       | EmptyString => false
       | String _ r => contains needle r
       end.

(** [s.replace(',', new)] *)
Fixpoint replace_comma (new s : string) : string :=
  match s with
  | EmptyString => EmptyString
  | String c r =>
      if Ascii.eqb c ","%char then new ++ replace_comma new r
      else String c (replace_comma new r)
  end.

(** The keyword [kw] (lower-case letters) matches at the head of [s],
    ignoring case, and is followed by a word boundary. *)
Fixpoint keyword_at (kw s : string) : bool :=
  match kw, s with
  | EmptyString, EmptyString => true
  | EmptyString, String c _ => negb (is_word_char c)
  | String k kw', String c s' => Ascii.eqb k (lower_char c) && keyword_at kw' s'
  | String _ _, EmptyString => false
  end.

(** [re.sub(r'\bKW\b', kw, s, flags=re.IGNORECASE)]: one left-to-right scan
    for non-overlapping matches.  [prev] tells whether the character before
    the current position is a word character, [skip] counts the characters
    of a match that are still to be dropped. *)
Fixpoint sub_keyword_from (kw : string) (prev : bool) (skip : nat) (s : string)
  : string :=
  match s with
  | EmptyString => EmptyString
  | String c r =>
      match skip with
      | S k => sub_keyword_from kw (is_word_char c) k r
      | O =>
          if negb prev && keyword_at kw s
          then kw ++ sub_keyword_from kw (is_word_char c) (String.length kw - 1) r
          else String c (sub_keyword_from kw (is_word_char c) 0 r)
      end
  end.

Definition sub_keyword (kw s : string) : string :=
  sub_keyword_from kw false 0 s.

Fixpoint spaces (n : nat) : string :=
  match n with
  | O => EmptyString
  | S k => String " " (spaces k)
  end.

(** [s.expandtabs()], tab size 8; the column restarts after a line break. *)
Fixpoint expandtabs_from (col : nat) (s : string) : string :=
  match s with
  | EmptyString => EmptyString
  | String c r =>
      if Ascii.eqb c "009"%char then
        let n := 8 - Nat.modulo col 8 in
        spaces n ++ expandtabs_from 0 r
      else if Ascii.eqb c "010"%char || Ascii.eqb c "013"%char then
        String c (expandtabs_from 0 r)
      else String c (expandtabs_from (S col) r)
  end.

Definition expandtabs (s : string) : string := expandtabs_from 0 s.

End PyStr.

(** ** JSON values and records *)

(** A value of a flat JSON object after [json.load]: [None], a [bool],
    an [int] or a [str]. *)
Inductive value : Type :=
| VNone
| VBool (b : bool)
| VInt (z : Z)
| VStr (s : string).

(** A record is a [dict] from [json.load]; Python dicts iterate in
    insertion order, so the record is the list of its items in that order. *)
Definition record : Type := list (string * value).

(** Truth value of a Python object: [None], [False], [0] and [''] are
    false. *)
Definition truthy (v : value) : bool :=
  match v with
  | VNone => false
  | VBool b => b
  | VInt z => negb (Z.eqb z 0)
  | VStr s => negb (String.eqb s EmptyString)
  end.

(** [a or b] *)
Definition py_or (a b : value) : value := if truthy a then a else b.

(** [a == b], as used by set membership: [True == 1] and [False == 0]. *)
Definition py_eq (a b : value) : bool :=
  match a, b with
  | VNone, VNone => true
  | VStr s, VStr t => String.eqb s t
  | VInt x, VInt y => Z.eqb x y
  | VBool x, VBool y => Bool.eqb x y
  | VBool x, VInt y | VInt y, VBool x => Z.eqb (if x then 1 else 0)%Z y
  | _, _ => false
  end.

(** [str(v)] *)
Definition py_str (v : value) : string :=
  match v with
  | VNone => "None"
  | VBool true => "True"
  | VBool false => "False"
  | VInt z => NilZero.string_of_int (Z.to_int z)
  | VStr s => s
  end.

(** [key in obj] *)
Definition has_key (key : string) (obj : record) : bool :=
  existsb (fun kv => String.eqb (fst kv) key) obj.

(** [obj.get(key)]: the value, [None] when the key is absent. *)
Fixpoint dict_get (key : string) (obj : record) : value :=
  match obj with
  | [] => VNone
  | (k, v) :: rest => if String.eqb k key then v else dict_get key rest
  end.

(** [v in seen] for the [set] of identifiers. *)
Definition set_mem (v : value) (seen : list value) : bool :=
  existsb (py_eq v) seen.

(** ** The search expression AST (classes [SearchTerm],
       [BinaryOperation], [NotOperation]) *)

Inductive node : Type :=
| SearchTerm (term : string)
| BinaryOperation (operator : string) (operands : list node)
| NotOperation (operand : node).

(** The [evaluate] methods.  [BinaryOperation.evaluate] returns [None] for
    an operator other than [and] and [or]; every caller only tests the
    result's truth value, which is what the model returns. *)
Fixpoint evaluate (n : node) (obj : record) : bool :=
  match n with
  | SearchTerm term =>
      existsb (fun kv =>
                 match snd kv with
                 | VNone => false
                 | v => PyStr.contains (PyStr.lower term) (PyStr.lower (py_str v))
                 end) obj
  | BinaryOperation operator operands =>
      if String.eqb operator "and" then
        forallb (fun op => evaluate op obj) operands
      else if String.eqb operator "or" then
        existsb (fun op => evaluate op obj) operands
      else false
  | NotOperation operand => negb (evaluate operand obj)
  end.

(** ** [detect_format] *)

Definition detect_format (obj : record) : string :=
  if has_key "doff_specialization" obj then "doff"
  else if has_key "basic" obj || has_key "detailed" obj || has_key "obtained" obj
  then "starship_trait"
  else if has_key "chartype" obj && has_key "environment" obj
  then "personal_trait"
  else if existsb (fun kv =>
                     let k := fst kv in
                     PyStr.startswith k "head" || PyStr.startswith k "text"
                     || PyStr.startswith k "subhead") obj
  then "equipment"
  else "unknown".

(** ** The field pattern of [print_equipment]

    [re.compile(r'^(head|subhead|text)(\d+)$', re.IGNORECASE)] and
    [pattern.match(key)]: the group in lower case, as the caller stores it,
    and the digits.  [$] also matches before a final newline. *)

Fixpoint strip_prefix_nocase (p s : string) : option string :=
  match p, s with
  | EmptyString, _ => Some s
  | String a p', String c s' =>
      if Ascii.eqb a (PyStr.lower_char c) then strip_prefix_nocase p' s'
      else None
  | String _ _, EmptyString => None
  end.

Fixpoint digits_then_end (s : string) : bool :=
  match s with
  | EmptyString => false
  | String c r =>
      PyStr.is_digit c
      && match r with
         | EmptyString => true
         | String n EmptyString => Ascii.eqb n "010"%char || digits_then_end r
         | _ => digits_then_end r
         end
  end.

Fixpoint span_digits (s : string) : string :=
  match s with
  | String c r => if PyStr.is_digit c then String c (span_digits r) else EmptyString
  | EmptyString => EmptyString
  end.

Definition equipment_field (key : string) : option (string * string) :=
  let try group :=
    match strip_prefix_nocase group key with
    | Some rest =>
        if digits_then_end rest then Some (group, span_digits rest) else None
    | None => None
    end in
  match try "head" with
  | Some r => Some r
  | None =>
      match try "subhead" with
      | Some r => Some r
      | None => try "text"
      end
  end.

(** ** The pyparsing elements used by [parse_search_expression]

    pyparsing is a third-party library; the definitions below follow its
    documented behaviour for the elements the source builds: [Literal],
    [Word], [QuotedString], [FollowedBy], [Group], [OneOrMore],
    [infixNotation] and [parseString(..., parseAll=True)].  Every element
    skips leading white space before it matches. *)

Module Pyparsing.

(** Result of running an element on the rest of the input: a match with
    the input that remains, a [ParseException], or an exhausted recursion
    budget. *)
Inductive presult (A : Type) : Type :=
| POk (a : A) (rest : string)
| PFail
| PFuel.
Arguments POk {A} a rest.
Arguments PFail {A}.
Arguments PFuel {A}.

Definition parser (A : Type) : Type := string -> presult A.

Definition bind {A B : Type} (p : parser A) (k : A -> parser B) : parser B :=
  fun s =>
    match p s with
    | POk a rest => k a rest
    | PFail => PFail
    | PFuel => PFuel
    end.

Notation "x <- p ;; k" := (bind p (fun x => k))
  (at level 61, p at next level, right associativity).

Definition ret {A : Type} (a : A) : parser A := fun s => POk a s.

(** [p | q] (MatchFirst): the first alternative that matches. *)
Definition alt {A : Type} (p q : parser A) : parser A :=
  fun s =>
    match p s with
    | PFail => q s
    | r => r
    end.

(** The default white space characters, blank, newline, tab and
    carriage return. *)
Definition is_white (c : ascii) : bool :=
  Ascii.eqb c " "%char || Ascii.eqb c "010"%char
  || Ascii.eqb c "009"%char || Ascii.eqb c "013"%char.

Fixpoint skip_white (s : string) : string :=
  match s with
  | String c r => if is_white c then skip_white r else s
  | EmptyString => EmptyString
  end.

Fixpoint drop (n : nat) (s : string) : string :=
  match n, s with
  | S k, String _ r => drop k r
  | _, _ => s
  end.

(** [Literal(lit)]: the exact text, with no word boundary after it. *)
Definition Literal (lit : string) : parser string :=
  fun s =>
    let s := skip_white s in
    if String.prefix lit s then POk lit (drop (String.length lit) s)
    else PFail.

(** The body characters of [Word(alphanums + '-_')]. *)
Definition is_term_char (c : ascii) : bool :=
  PyStr.is_alphanum c || Ascii.eqb c "-"%char || Ascii.eqb c "_"%char.

Fixpoint span (f : ascii -> bool) (s : string) : string * string :=
  match s with
  | String c r =>
      if f c then let '(w, rest) := span f r in (String c w, rest)
      else (EmptyString, s)
  | EmptyString => (EmptyString, EmptyString)
  end.

(** [Word(chars)]: the longest non-empty run of characters of the class. *)
Definition Word (f : ascii -> bool) : parser string :=
  fun s =>
    match span f (skip_white s) with
    | (EmptyString, _) => PFail
    | (w, rest) => POk w rest
    end.

Definition dquote : ascii := "034"%char.
Definition backslash : ascii := "092"%char.

(** The body of a quoted string: everything up to the closing quote; a
    line break or the end of the input before it is a failure. *)
Fixpoint quoted_body (s : string) : option (string * string) :=
  match s with
  | EmptyString => None
  | String c r =>
      if Ascii.eqb c dquote then Some (EmptyString, r)
      else if Ascii.eqb c "010"%char || Ascii.eqb c "013"%char then None
      else match quoted_body r with
           | Some (body, rest) => Some (String c body, rest)
           | None => None
           end
  end.

(** [convertWhitespaceEscapes]: the two-character sequences backslash-t,
    -n, -f and -r of the body become the white space they name. *)
Definition escape_target (c : ascii) : option ascii :=
  if Ascii.eqb c "t"%char then Some "009"%char
  else if Ascii.eqb c "n"%char then Some "010"%char
  else if Ascii.eqb c "f"%char then Some "012"%char
  else if Ascii.eqb c "r"%char then Some "013"%char
  else None.

Fixpoint convert_escapes (s : string) : string :=
  match s with
  | EmptyString => EmptyString
  | String a r0 =>
      if Ascii.eqb a backslash then
        match r0 with
        | String c r =>
            match escape_target c with
            | Some w => String w (convert_escapes r)
            | None => String a (convert_escapes r0)
            end
        | EmptyString => String a EmptyString
        end
      else String a (convert_escapes r0)
  end.

(** [QuotedString] for the double quote: the text between two double
    quotes on one line, without the quotes. *)
Definition QuotedString : parser string :=
  fun s =>
    match skip_white s with
    | String c r =>
        if Ascii.eqb c dquote then
          match quoted_body r with
          | Some (body, rest) => POk (convert_escapes body) rest
          | None => PFail
          end
        else PFail
    | EmptyString => PFail
    end.

(** [FollowedBy(p)]: [p] matches here; nothing is consumed. *)
Definition FollowedBy {A : Type} (p : parser A) : parser unit :=
  fun s =>
    match p s with
    | POk _ _ => POk tt s
    | PFail => PFail
    | PFuel => PFuel
    end.

(** [ZeroOrMore(p)], bounded by [fuel] rounds. *)
Fixpoint ZeroOrMore {A : Type} (fuel : nat) (p : parser A) : parser (list A) :=
  fun s =>
    match fuel with
    | O => PFuel
    | S f =>
        match p s with
        | POk a rest =>
            match ZeroOrMore f p rest with
            | POk l rest' => POk (a :: l) rest'
            | r => r
            end
        | PFail => POk [] s
        | PFuel => PFuel
        end
    end.

(** [OneOrMore(p)] *)
Definition OneOrMore {A : Type} (fuel : nat) (p : parser A) : parser (list A) :=
  a <- p ;; l <- ZeroOrMore fuel p ;; ret (a :: l).

(** [StringEnd()]: only white space remains. *)
Definition StringEnd : parser unit :=
  fun s =>
    match skip_white s with
    | EmptyString => POk tt EmptyString
    | _ => PFail
    end.

End Pyparsing.

(** ** [parse_search_expression] *)

Import Pyparsing.

(** [BinaryOperation.__init__]: for the grouped tokens
    [first, op, x1, op, x2, ...] the operator is [tokens[0][1].lower()]
    and the operands are [tokens[0][0::2]]. *)
Definition BinaryOperation_init (first : node) (rest : list (string * node))
  : node :=
  BinaryOperation (PyStr.lower (hd EmptyString (map fst rest)))
                  (first :: map snd rest).

(** A level of [infixNotation] for a unary, right-associative operator:
    [FollowedBy(op + thisExpr) + Group(Opt(op) + thisExpr) | lastExpr],
    where [thisExpr] is the level itself.  After the lookahead the optional
    operator is always present; [NotOperation.__init__] keeps
    [tokens[0][1]], the operand. *)
Fixpoint unary_right (fuel : nat) (op : string) (lastExpr : parser node)
  : parser node :=
  match fuel with
  | O => fun _ => PFuel
  | S f =>
      let thisExpr := unary_right f op lastExpr in
      alt (_ <- FollowedBy (_ <- Literal op ;; thisExpr) ;;
           _ <- Literal op ;;
           x <- thisExpr ;;
           ret (NotOperation x))
          lastExpr
  end.

(** A level of [infixNotation] for a binary, left-associative operator:
    [FollowedBy(lastExpr + op + lastExpr)
     + Group(lastExpr + OneOrMore(op + lastExpr)) | lastExpr]. *)
Definition binary_left (fuel : nat) (op : string) (lastExpr : parser node)
  : parser node :=
  alt (_ <- FollowedBy (_ <- lastExpr ;; _ <- Literal op ;; lastExpr) ;;
       first <- lastExpr ;;
       rest <- OneOrMore fuel (o <- Literal op ;; x <- lastExpr ;; ret (o, x)) ;;
       ret (BinaryOperation_init first rest))
      lastExpr.

(** [term = QuotedString | Word(alphanums + '-_')] with the parse action
    [SearchTerm]. *)
Definition term : parser node :=
  t <- alt QuotedString (Word is_term_char) ;; ret (SearchTerm t).

(** [infixNotation(term, [not; and; or])]: the operand of the first level
    is [term | '(' + search_expr + ')']. *)
Fixpoint search_expr (fuel : nat) : parser node :=
  match fuel with
  | O => fun _ => PFuel
  | S f =>
      let atom :=
        alt term
            (_ <- Literal "(" ;; e <- search_expr f ;; _ <- Literal ")" ;; ret e) in
      binary_left f "or" (binary_left f "and" (unary_right f "not" atom))
  end.

(** [search_expr.parseString(expr, parseAll=True)[0]]: tabs are expanded,
    the grammar runs and only white space may remain. *)
Definition parseString (expr : string) : presult node :=
  let instring := PyStr.expandtabs expr in
  (e <- search_expr (String.length instring + 2) ;; _ <- StringEnd ;; ret e)
    instring.

(** What [parse_search_expression] does: it returns the tree, or prints the
    [ParseException] and calls [exit(1)].  [Unfinished] stands for an
    exhausted recursion budget; [parse_search_expression_total] shows that
    the budget of [parseString] is never exhausted.  The interpreter's own
    recursion limit, which deeply nested parentheses can exceed with an
    uncaught [RecursionError], is not part of the model. *)
Inductive compiled : Type :=
| Compiled (tree : node)
| ParseError
| Unfinished.

Definition preprocess (expr : string) : string :=
  let expr := PyStr.replace_comma " OR" expr in
  let expr := PyStr.sub_keyword "and" expr in
  let expr := PyStr.sub_keyword "or" expr in
  let expr := PyStr.sub_keyword "not" expr in
  expr.

Definition parse_search_expression (expr : string) : compiled :=
  match parseString (preprocess expr) with
  | POk tree _ => Compiled tree
  | PFail => ParseError
  | PFuel => Unfinished
  end.

(** ** [main]: flags, the explicit file, the cached categories *)

Module Cli.

(** The [argparse] namespace.  [search_type] is the list that
    [type=lambda s: s.split(',')] produces. *)
Record Args : Type := {
  file : option string;
  search_type : option (list string);
  search : option string;
  list_all : bool;
  full : bool;
  no_strip_html : bool;
  force_download : bool;
  cache_dir : option string
}.

Inductive exn : Type :=
| IndexError
| KeyError (key : string)
| OtherError (name : string).

(** What [json.load] returns for the file: a list of flat objects or some
    other document. *)
Inductive json_doc : Type :=
| JList (items : list record)
| JOther.

Inductive load_result : Type :=
| Loaded (doc : json_doc)
| JSONDecodeError
| LoadRaises (e : exn).

(** The collaborators of [main]: the downloader (constructor and
    [download_all], which may raise), the file system and [load_json_file]. *)
Record World : Type := {
  default_cache_dir : string;
  downloader_error : option exn;
  path_exists : string -> bool;
  load_json_file : string -> load_result
}.

Inductive message : Type :=
| MsgMutuallyExclusive
| MsgNothingToDo
| MsgDownloadComplete
| MsgNoValidTypes
| MsgFileNotFound (path : string)
| MsgErrorLoadingJSON
| MsgMustBeList
| MsgFormatMismatch (inferred_type : string) (requested : list string)
| MsgParseError.

(** [all_matches]: the four buckets, in the order of the dict literal. *)
Definition matches : Type := list (string * list record).

(** How a run of [main] ends. *)
Inductive outcome : Type :=
| Printed (all_matches : matches) (full strip_html : bool)
| Returned (msg : message)
| Exited (code : Z) (msg : message)
| Raised (e : exn)
| OutOfBudget.

(** The status the process exits with: [0] after a normal return of
    [main] (for [Printed], when the printing code, which is not modelled,
    returns), the argument of [exit], [1] after an uncaught exception. *)
Definition exit_status (o : outcome) : option Z :=
  match o with
  | Printed _ _ _ => Some 0%Z
  | Returned _ => Some 0%Z
  | Exited code _ => Some code
  | Raised _ => Some 1%Z
  | OutOfBudget => None
  end.

Definition str_truthy (o : option string) : bool :=
  match o with
  | Some s => negb (String.eqb s EmptyString)
  | None => false
  end.

Definition list_truthy {A : Type} (o : option (list A)) : bool :=
  match o with
  | Some (_ :: _) => true
  | _ => false
  end.

(** The two Python objects compared by [args.search_type != inferred_type]. *)
Inductive pyobj : Type :=
| PyStrObj (s : string)
| PyListObj (l : list string).

(** [a != b]: a [list] and a [str] are never equal. *)
Definition py_ne (a b : pyobj) : bool :=
  match a, b with
  | PyStrObj s, PyStrObj t => negb (String.eqb s t)
  | PyListObj l, PyListObj m =>
      negb (if list_eq_dec string_dec l m then true else false)
  | _, _ => true
  end.

(** The keys of [CARGO_TYPES]. *)
Definition CARGO_TYPES_keys : list string :=
  ["equipment"; "personal_trait"; "starship_trait"; "doff"].

Definition empty_matches : matches :=
  [("equipment", []); ("starship_trait", []); ("doff", []);
   ("personal_trait", [])].

(** [all_matches[key]]; [None] is the [KeyError]. *)
Fixpoint bucket (key : string) (m : matches) : option (list record) :=
  match m with
  | [] => None
  | (k, l) :: rest => if String.eqb k key then Some l else bucket key rest
  end.

(** [all_matches[key].append(obj)]; [None] is the [KeyError]. *)
Fixpoint append_match (key : string) (obj : record) (m : matches)
  : option matches :=
  match m with
  | [] => None
  | (k, l) :: rest =>
      if String.eqb k key then Some ((k, (l ++ [obj])%list) :: rest)
      else match append_match key obj rest with
           | Some rest' => Some ((k, l) :: rest')
           | None => None
           end
  end.

(** [obj.get('name') or obj.get('doff_specialization')
     or obj.get('_pageName')] *)
Definition identifier (obj : record) : value :=
  py_or (py_or (dict_get "name" obj) (dict_get "doff_specialization" obj))
        (dict_get "_pageName" obj).

(** [not search_tree or search_tree.evaluate(obj)] *)
Definition passes (search_tree : option node) (obj : record) : bool :=
  match search_tree with
  | None => true
  | Some tree => evaluate tree obj
  end.

(** The loop [for obj in data] of both branches of [main]; [key] is the
    bucket, [inferred_type] or [stype]. *)
Fixpoint collect (search_tree : option node) (key : string)
  (data : list record) (all_matches : matches) (seen : list value)
  : exn + (matches * list value) :=
  match data with
  | [] => inr (all_matches, seen)
  | obj :: data' =>
      let identifier := identifier obj in
      if truthy identifier && negb (set_mem identifier seen) then
        if passes search_tree obj then
          match append_match key obj all_matches with
          | Some all_matches' =>
              collect search_tree key data' all_matches' (identifier :: seen)
          | None => inl (KeyError key)
          end
        else collect search_tree key data' all_matches seen
      else collect search_tree key data' all_matches seen
  end.

(** [parse_search_expression(args.search) if args.search else None] *)
Definition compile_search (args : Args) : outcome + option node :=
  if str_truthy (search args) then
    match search args with
    | Some expr =>
        match parse_search_expression expr with
        | Compiled tree => inr (Some tree)
        | ParseError => inl (Exited 1 MsgParseError)
        | Unfinished => inl OutOfBudget
        end
    | None => inr None
    end
  else inr None.

Definition cache_file (dir cargo_type : string) : string :=
  dir ++ "/" ++ cargo_type ++ ".json".

(** The branch [if args.file:] *)
Definition search_file (args : Args) (w : World) (path : string)
  (all_matches : matches) : outcome + matches :=
  if negb (path_exists w path) then inl (Returned (MsgFileNotFound path))
  else
    match load_json_file w path with
    | JSONDecodeError => inl (Returned MsgErrorLoadingJSON)
    | LoadRaises e => inl (Raised e)
    | Loaded JOther => inl (Returned MsgMustBeList)
    | Loaded (JList data) =>
        match data with
        | [] => inl (Raised IndexError)
        | first :: _ =>
            let inferred_type := detect_format first in
            if list_truthy (search_type args)
               && py_ne (PyListObj (match search_type args with
                                    | Some l => l
                                    | None => []
                                    end))
                        (PyStrObj inferred_type)
            then inl (Returned (MsgFormatMismatch inferred_type
                                  (match search_type args with
                                   | Some l => l
                                   | None => []
                                   end)))
            else
              match compile_search args with
              | inl o => inl o
              | inr search_tree =>
                  match collect search_tree inferred_type data all_matches [] with
                  | inl e => inl (Raised e)
                  | inr (all_matches', _) => inr all_matches'
                  end
              end
        end
    end.

(** The branch [else: for stype in selected_types:] *)
Fixpoint search_cache (args : Args) (w : World) (dir : string)
  (selected_types : list string) (all_matches : matches)
  : outcome + matches :=
  match selected_types with
  | [] => inr all_matches
  | stype :: rest =>
      let filename := cache_file dir stype in
      if negb (path_exists w filename) then
        search_cache args w dir rest all_matches
      else
        match load_json_file w filename with
        | JSONDecodeError => search_cache args w dir rest all_matches
        | LoadRaises e => inl (Raised e)
        | Loaded JOther => search_cache args w dir rest all_matches
        | Loaded (JList data) =>
            match compile_search args with
            | inl o => inl o
            | inr search_tree =>
                match collect search_tree stype data all_matches [] with
                | inl e => inl (Raised e)
                | inr (all_matches', _) =>
                    search_cache args w dir rest all_matches'
                end
            end
        end
  end.

Definition mem_string (s : string) (l : list string) : bool :=
  existsb (String.eqb s) l.

(** [set(selected_types) & set(CARGO_TYPES.keys())], listed in the order
    of [CARGO_TYPES]. *)
Definition selected_types (args : Args) : list string :=
  let requested := if list_truthy (search_type args)
                   then match search_type args with
                        | Some l => l
                        | None => CARGO_TYPES_keys
                        end
                   else CARGO_TYPES_keys in
  filter (fun t => mem_string t requested) CARGO_TYPES_keys.

(** [main()], up to the hand-over of [all_matches] to the printing code. *)
Definition main (args : Args) (w : World) : outcome :=
  if str_truthy (search args) && list_all args then
    Exited 1 MsgMutuallyExclusive
  else if negb (str_truthy (search args) || list_all args || force_download args)
  then Exited 1 MsgNothingToDo
  else
    let dir := if str_truthy (cache_dir args)
               then match cache_dir args with
                    | Some d => d
                    | None => default_cache_dir w
                    end
               else default_cache_dir w in
    if force_download args && negb (str_truthy (search args) || list_all args)
    then
      match downloader_error w with
      | Some e => Raised e
      | None => Returned MsgDownloadComplete
      end
    else
      match downloader_error w with
      | Some e => Raised e
      | None =>
          match selected_types args with
          | [] => Exited 1 MsgNoValidTypes
          | _ :: _ =>
              let found :=
                if str_truthy (file args)
                then match file args with
                     | Some path => search_file args w path empty_matches
                     | None => inr empty_matches
                     end
                else search_cache args w dir (selected_types args)
                       empty_matches in
              match found with
              | inl o => o
              | inr all_matches =>
                  Printed all_matches (full args) (negb (no_strip_html args))
              end
          end
      end.

(** The flags let [main] go past its two checks and search: exactly one
    of [--search] and [--list-all] is set. *)
Definition searching (args : Args) : bool :=
  negb (str_truthy (search args) && list_all args)
  && (str_truthy (search args) || list_all args).

End Cli.

(** * Vocabulary of the properties *)

Import Cli.

(** The first value of a list that is true in Python's sense. *)
Definition first_truthy (vs : list value) : option value := find truthy vs.

Definition phaser : record :=
  [("name", VStr "Phaser Mk XII"); ("rarity", VStr "Rare")].

(** An expression between double quotes. *)
Definition quoted (s : string) : string :=
  String dquote (s ++ String dquote EmptyString).

(** A world whose only file is [path], with [loaded] as what
    [load_json_file] makes of it, and a run that lists the file. *)
Definition world_with (path : string) (loaded : load_result) : World :=
  {| default_cache_dir := "~/.sto-cargo-cache";
     downloader_error := None;
     path_exists := fun p => String.eqb p path;
     load_json_file := fun _ => loaded |}.

Definition list_file (path : string) (types : option (list string)) : Args :=
  {| file := Some path; search_type := types; search := None;
     list_all := true; full := false; no_strip_html := false;
     force_download := false; cache_dir := None |}.

(** The records the loop appends, in order, and the identifiers it has
    seen at the end, as functions of the data and of the identifiers seen
    at the start. *)
Fixpoint appended (search_tree : option node) (data : list record)
  (seen : list value) : list record :=
  match data with
  | [] => []
  | obj :: data' =>
      if truthy (identifier obj) && negb (set_mem (identifier obj) seen)
         && passes search_tree obj
      then obj :: appended search_tree data' (identifier obj :: seen)
      else appended search_tree data' seen
  end.

Fixpoint seen_after (search_tree : option node) (data : list record)
  (seen : list value) : list value :=
  match data with
  | [] => seen
  | obj :: data' =>
      if truthy (identifier obj) && negb (set_mem (identifier obj) seen)
         && passes search_tree obj
      then seen_after search_tree data' (identifier obj :: seen)
      else seen_after search_tree data' seen
  end.

Definition foo_common : record := [("name", VStr "Foo"); ("rarity", VStr "Common")].
Definition foo_rare : record := [("name", VStr "Foo"); ("rarity", VStr "Rare")].
Definition foo_very_rare : record :=
  [("name", VStr "Foo"); ("rarity", VStr "Very Rare")].

Fixpoint no_comma (s : string) : bool :=
  match s with
  | EmptyString => true
  | String c r => negb (Ascii.eqb c ","%char) && no_comma r
  end.

(** No [SearchTerm] of the tree has a comma in its text. *)
Fixpoint terms_no_comma (n : node) : bool :=
  match n with
  | SearchTerm t => no_comma t
  | BinaryOperation _ operands => forallb terms_no_comma operands
  | NotOperation operand => terms_no_comma operand
  end.

(** An element keeps commas out: on an input without comma, what it
    returns satisfies [Q] and what it leaves has no comma. *)
Definition keeps {A : Type} (Q : A -> Prop) (p : parser A) : Prop :=
  forall s a rest,
    no_comma s = true -> p s = POk a rest -> Q a /\ no_comma rest = true.

Definition clean_text (t : string) : Prop := no_comma t = true.
Definition clean_tree (n : node) : Prop := terms_no_comma n = true.

(** [shrinks]: what an element leaves is no longer than its input;
    [eats]: it is shorter; [runs n]: on inputs of length at most [n] the
    recursion budget is not exhausted. *)
Definition shrinks {A : Type} (p : parser A) : Prop :=
  forall s a rest, p s = POk a rest -> String.length rest <= String.length s.

Definition eats {A : Type} (p : parser A) : Prop :=
  forall s a rest, p s = POk a rest -> String.length rest < String.length s.

Definition runs {A : Type} (n : nat) (p : parser A) : Prop :=
  forall s, String.length s <= n -> p s <> PFuel.

(** [l1] is [l2] with some elements left out, the order kept. *)
Inductive subseq {A : Type} : list A -> list A -> Prop :=
| subseq_nil : subseq [] []
| subseq_skip (x : A) (l1 l2 : list A) : subseq l1 l2 -> subseq l1 (x :: l2)
| subseq_take (x : A) (l1 l2 : list A) : subseq l1 l2 -> subseq (x :: l1) (x :: l2).

(** Two records have different identifiers, in the sense of set
    membership. *)
Definition distinct_identity (a b : record) : Prop :=
  py_eq (identifier a) (identifier b) = false.

(** What a cache file contributes to a run: its records when it exists
    and loads as a list, nothing when it is missing, malformed or not a
    list. *)
Definition cache_contents (w : World) (dir cargo_type : string) : list record :=
  if path_exists w (cache_file dir cargo_type) then
    match load_json_file w (cache_file dir cargo_type) with
    | Loaded (JList data) => data
    | _ => []
    end
  else [].

(** Loading the cache file of the type raises something [main] does not
    catch. *)
Definition cache_raises (w : World) (dir cargo_type : string) : bool :=
  path_exists w (cache_file dir cargo_type)
  && match load_json_file w (cache_file dir cargo_type) with
     | LoadRaises _ => true
     | _ => false
     end.

(** The cache file of the type exists and loads as a list. *)
Definition cache_is_list (w : World) (dir cargo_type : string) : bool :=
  path_exists w (cache_file dir cargo_type)
  && match load_json_file w (cache_file dir cargo_type) with
     | Loaded (JList _) => true
     | _ => false
     end.

(** [cache_dir] as [main] computes it. *)
Definition cache_dir_of (args : Args) (w : World) : string :=
  if str_truthy (cache_dir args)
  then match cache_dir args with
       | Some d => d
       | None => default_cache_dir w
       end
  else default_cache_dir w.

(** A world given by its cache files, and runs over the cache. *)
Definition world_of_cache (files : list (string * load_result)) : World :=
  {| default_cache_dir := "cache";
     downloader_error := None;
     path_exists := fun p => existsb (fun f => String.eqb (fst f) p) files;
     load_json_file := fun p =>
       match find (fun f => String.eqb (fst f) p) files with
       | Some f => snd f
       | None => JSONDecodeError
       end |}.

Definition search_cached (expr : string) (types : option (list string)) : Args :=
  {| file := None; search_type := types; search := Some expr;
     list_all := false; full := false; no_strip_html := false;
     force_download := false; cache_dir := None |}.

Definition list_cached (types : option (list string)) : Args :=
  {| file := None; search_type := types; search := None;
     list_all := true; full := false; no_strip_html := false;
     force_download := false; cache_dir := None |}.

(** The tree is one the grammar can build: every [BinaryOperation] has the
    operator [and] or [or] and at least two operands. *)
Fixpoint well_formed (n : node) : bool :=
  match n with
  | SearchTerm _ => true
  | BinaryOperation operator operands =>
      (String.eqb operator "and" || String.eqb operator "or")
      && Nat.leb 2 (List.length operands)
      && forallb well_formed operands
  | NotOperation operand => well_formed operand
  end.

(** Whatever an element returns satisfies [Q]. *)
Definition yields {A : Type} (Q : A -> Prop) (p : parser A) : Prop :=
  forall s a rest, p s = POk a rest -> Q a.

(** An element never matches on white space alone. *)
Fixpoint all_white (s : string) : bool :=
  match s with
  | EmptyString => true
  | String c r => is_white c && all_white r
  end.

Definition starves {A : Type} (p : parser A) : Prop :=
  forall s a rest, all_white s = true -> p s <> POk a rest.

(** The record without its fields whose value is [None]. *)
Definition without_none (obj : record) : record :=
  filter (fun kv => match snd kv with VNone => false | _ => true end) obj.

(** The tree with its terms in lower case, the record with its strings in
    lower case. *)
Fixpoint lower_terms (n : node) : node :=
  match n with
  | SearchTerm t => SearchTerm (PyStr.lower t)
  | BinaryOperation operator operands =>
      BinaryOperation operator (map lower_terms operands)
  | NotOperation operand => NotOperation (lower_terms operand)
  end.

Definition lower_value (v : value) : value :=
  match v with
  | VStr s => VStr (PyStr.lower s)
  | _ => v
  end.

Definition lower_values (obj : record) : record :=
  map (fun kv => (fst kv, lower_value (snd kv))) obj.

(** ** [CargoDownloader]: URLs and the paging loop of [download] *)

Module Downloader.

(** An entry of [CARGO_TYPES]. *)
Record conf : Type := {
  tables : string;
  fields : string;
  limit : nat;
  where_clause : option string
}.

(** [str(n)] for a non-negative [int]. *)
Definition str_nat (n : nat) : string := NilEmpty.string_of_uint (Nat.to_uint n).

(** [','.join(f'{prefix}{i}' for prefix in ('head', 'subhead', 'text')
     for i in range(1, 10))] *)
Definition section_fields : string :=
  String.concat ","
    (flat_map (fun prefix => map (fun i => prefix ++ str_nat i) (seq 1 9))
              ["head"; "subhead"; "text"]).

Definition CARGO_TYPES : list (string * conf) :=
  [("equipment",
    {| tables := "Infobox";
       fields := "_pageName=Page,name,rarity,type,boundto,boundwhen,who,"
                 ++ section_fields;
       limit := 5000;
       where_clause := None |});
   ("personal_trait",
    {| tables := "Traits";
       fields := "_pageName=Page,name,chartype,environment,type,isunique,description";
       limit := 2500;
       where_clause := None |});
   ("starship_trait",
    {| tables := "StarshipTraits";
       fields := "_pageName=Page,name,short,type,detailed,obtained,basic";
       limit := 2500;
       where_clause := Some "name IS NOT NULL" |});
   ("doff",
    {| tables := "Specializations";
       fields := "_pageName=Page,name=doff_specialization,shipdutytype,department,description,white,green,blue,purple,violet,gold";
       limit := 1000;
       where_clause := None |})].

(** [CARGO_TYPES[cargo_type]]; [None] is the [KeyError]. *)
Fixpoint lookup (cargo_type : string) (table : list (string * conf))
  : option conf :=
  match table with
  | [] => None
  | (k, c) :: rest => if String.eqb k cargo_type then Some c else lookup cargo_type rest
  end.

Definition WIKI_BASE_URL : string := "https://stowiki.net/wiki/".
Definition CARGO_EXPORT_PAGE : string := "Special:CargoExport".

(** The URL [build_url] makes from an entry. *)
Definition url_of (c : conf) (offset : nat) : string :=
  let params :=
    List.app
      ["tables=" ++ tables c;
       "fields=" ++ fields c;
       "limit=" ++ str_nat (limit c);
       "offset=" ++ str_nat offset;
       "format=json"]
      match where_clause c with
      | Some w => ["where=" ++ w]
      | None => []
      end in
  WIKI_BASE_URL ++ CARGO_EXPORT_PAGE ++ "?" ++ String.concat "&" params.

(** [build_url(cargo_type, offset)]; [None] is the [KeyError]. *)
Definition build_url (cargo_type : string) (offset : nat) : option string :=
  match lookup cargo_type CARGO_TYPES with
  | Some c => Some (url_of c offset)
  | None => None
  end.

(** What [requests.get(url)] gives: a response that is not [ok], a
    response whose [json()] is a list of records, or an exception. *)
Inductive response : Type :=
| NotOk
| Json (batch : list record)
| GetRaises.

(** How the loop [while True] of [download] ends: it breaks with
    [all_data] after the requests of [log], something raises, or the
    budget of rounds is used up. *)
Inductive fetched : Type :=
| Fetched (all_data : list record) (log : list string)
| FetchRaised
| FetchUnfinished.

(** The loop of [download] for an entry [c], from [offset] on. *)
Fixpoint fetch_pages (fuel : nat) (get : string -> response) (c : conf)
  (offset : nat) (all_data : list record) (log : list string) : fetched :=
  match fuel with
  | O => FetchUnfinished
  | S f =>
      let url := url_of c offset in
      let log := (log ++ [url])%list in
      match get url with
      | GetRaises => FetchRaised
      | NotOk => Fetched all_data log
      | Json batch =>
          match batch with
          | [] => Fetched all_data log
          | _ :: _ =>
              let all_data := (all_data ++ batch)%list in
              if Nat.ltb (List.length batch) (limit c)
              then Fetched all_data log
              else fetch_pages f get c (offset + limit c) all_data log
          end
      end
  end.

(** What [download(cargo_type)] does to the cache file. *)
Inductive downloaded : Type :=
| Kept
| Wrote (all_data : list record) (log : list string)
| DownloadRaised
| DownloadUnfinished.

(** [download(cargo_type)].  [valid] is [is_cache_valid(path)], whose
    comparison of the file's age with the clock is left to the caller. *)
Definition download (fuel : nat) (force_download valid : bool)
  (get : string -> response) (cargo_type : string) : downloaded :=
  if negb force_download && valid then Kept
  else
    match lookup cargo_type CARGO_TYPES with
    | None => DownloadRaised
    | Some c =>
        match fetch_pages fuel get c 0 [] [] with
        | Fetched all_data log => Wrote all_data log
        | FetchRaised => DownloadRaised
        | FetchUnfinished => DownloadUnfinished
        end
    end.

End Downloader.

(** What the last response of a download adds: its short batch, nothing
    when it is not [ok]. *)
Definition last_batch (r : Downloader.response) : list record :=
  match r with
  | Downloader.Json batch => batch
  | _ => []
  end.

(** The URLs of the pages [first], ..., [first + count - 1] of an entry. *)
Definition page_urls (c : Downloader.conf) (first count : nat) : list string :=
  map (fun j => Downloader.url_of c (j * Downloader.limit c)) (seq first count).

(** ** [format_text_with_indent] *)

Module Format.

Definition newline : ascii := "010"%char.
Definition tab : ascii := "009"%char.

(** The characters [str.strip()] removes, on ASCII text. *)
Definition is_space (c : ascii) : bool :=
  PyStr.in_range 9 13 c || PyStr.in_range 28 32 c.

(** [s.split(sep)] for a one-character separator. *)
Fixpoint split (sep : ascii) (s : string) : list string :=
  match s with
  | EmptyString => [EmptyString]
  | String c r =>
      if Ascii.eqb c sep then EmptyString :: split sep r
      else match split sep r with
           | h :: t => String c h :: t
           | [] => [String c EmptyString]
           end
  end.

(** [sep.join(parts)] *)
Fixpoint join (sep : ascii) (parts : list string) : string :=
  match parts with
  | [] => EmptyString
  | [p] => p
  | p :: rest => p ++ String sep (join sep rest)
  end.

(** [c in s] *)
Fixpoint has_char (c : ascii) (s : string) : bool :=
  match s with
  | EmptyString => false
  | String x r => Ascii.eqb x c || has_char c r
  end.

(** [s.split(sep, 1)] when [sep] occurs in [s]: the text before the first
    separator and the text after it. *)
Fixpoint split_once (sep : ascii) (s : string) : string * string :=
  match s with
  | EmptyString => (EmptyString, EmptyString)
  | String c r =>
      if Ascii.eqb c sep then (EmptyString, r)
      else let '(a, b) := split_once sep r in (String c a, b)
  end.

Fixpoint lstrip (s : string) : string :=
  match s with
  | String c r => if is_space c then lstrip r else s
  | EmptyString => EmptyString
  end.

Fixpoint rstrip (s : string) : string :=
  match s with
  | EmptyString => EmptyString
  | String c r =>
      match rstrip r with
      | EmptyString => if is_space c then EmptyString else String c EmptyString
      | r' => String c r'
      end
  end.

(** [s.strip()] *)
Definition strip (s : string) : string := rstrip (lstrip s).

(** ['\t' * n] *)
Fixpoint tabs (n : nat) : string :=
  match n with
  | O => EmptyString
  | S k => String tab (tabs k)
  end.

(** The body of the loop [for line in lines]. *)
Definition format_line (indent_level : nat) (line : string) : string :=
  if has_char ":"%char line then
    let '(before, after) := split_once ":"%char line in
    tabs indent_level ++ strip before ++ String tab (strip after)
  else tabs indent_level ++ strip line.

(** [format_text_with_indent(text, indent_level, strip_html)];
    [strip_html_tags] is the function of that name, which rests on
    [html.unescape] and [HTMLParser] and is taken as given. *)
Definition format_text_with_indent (strip_html_tags : string -> string)
  (text : string) (indent_level : nat) (strip_html : bool) : string :=
  let text := if strip_html then strip_html_tags text else text in
  let lines := split newline text in
  join newline (map (format_line indent_level) lines).

End Format.

(** * Properties *)

(** ** Classification *)

(** A field name that begins, as written, with [head], [text] or
    [subhead] makes a record that passes the three earlier tests an
    [equipment] record. *)
Lemma detect_format_equipment (obj : record) (k : string) (v : value) :
  has_key "doff_specialization" obj = false ->
  has_key "basic" obj || has_key "detailed" obj || has_key "obtained" obj = false ->
  has_key "chartype" obj && has_key "environment" obj = false ->
  In (k, v) obj ->
  PyStr.startswith k "head" || PyStr.startswith k "text"
  || PyStr.startswith k "subhead" = true ->
  detect_format obj = "equipment".
Proof.
  intros Hd Hs Hp Hin Hk. unfold detect_format.
  rewrite Hd, Hs, Hp.
  replace (existsb _ obj) with true; [reflexivity|].
  symmetry. apply existsb_exists. exists (k, v). split; [exact Hin | exact Hk].
Qed.

(** C2: the record whose only field is [Head1] passes none of the three
    earlier tests and has a field name that begins with [head] when case is
    ignored (the pattern of [print_equipment] accepts it as a [head]
    field), yet [detect_format] answers [unknown], not [equipment]: its
    [startswith] tests compare case as written. *)
Theorem detect_format_Head1_unknown :
  let obj := [("Head1", VStr "Phaser")] in
  has_key "doff_specialization" obj = false
  /\ has_key "basic" obj || has_key "detailed" obj || has_key "obtained" obj = false
  /\ has_key "chartype" obj && has_key "environment" obj = false
  /\ PyStr.startswith (PyStr.lower "Head1") "head" = true
  /\ equipment_field "Head1" = Some ("head", "1")
  /\ detect_format obj = "unknown".
Proof. repeat split. Qed.

(** ** Identity *)

(** C5, as the code has it: the identity is the first of [name],
    [doff_specialization], [_pageName] whose value is true in Python's
    sense (not [None], not empty, not zero, not [False]); when none is,
    it is the value of [_pageName], which is then false. *)
Theorem identifier_first_truthy (obj : record) :
  identifier obj =
  match first_truthy [dict_get "name" obj; dict_get "doff_specialization" obj;
                      dict_get "_pageName" obj] with
  | Some v => v
  | None => dict_get "_pageName" obj
  end.
Proof.
  unfold identifier, py_or, first_truthy. cbn [find].
  destruct (truthy (dict_get "name" obj)) eqn:Hn.
  - rewrite Hn. reflexivity.
  - destruct (truthy (dict_get "doff_specialization" obj)) eqn:Hd.
    + reflexivity.
    + destruct (truthy (dict_get "_pageName" obj)); reflexivity.
Qed.

(** C5 fails as stated: a record whose [name] is the empty string and
    whose [doff_specialization] is [Engineer] has the identity
    [Engineer]; the empty [name], though not [None], is passed over. *)
Lemma identifier_empty_name_falls_through :
  let obj := [("name", VStr EmptyString); ("doff_specialization", VStr "Engineer")] in
  dict_get "name" obj = VStr EmptyString
  /\ identifier obj = VStr "Engineer"
  /\ identifier obj <> VStr EmptyString.
Proof. repeat split. discriminate. Qed.

(** ** Search expressions *)

(** C7: on the record with name [Phaser Mk XII] and rarity [Rare], the
    tree compiled from [mk and rare] evaluates to true and the tree
    compiled from [mk and not rare] evaluates to false. *)
Theorem phaser_scenario :
  (exists tree, parse_search_expression "mk and rare" = Compiled tree
                /\ evaluate tree phaser = true)
  /\ (exists tree, parse_search_expression "mk and not rare" = Compiled tree
                   /\ evaluate tree phaser = false).
Proof.
  split.
  - exists (BinaryOperation "and" [SearchTerm "mk"; SearchTerm "rare"]).
    split; vm_compute; reflexivity.
  - exists (BinaryOperation "and" [SearchTerm "mk"; NotOperation (SearchTerm "rare")]).
    split; vm_compute; reflexivity.
Qed.

(** C8: the comma is rewritten to [ OR] with no blank after it, so the
    two expressions do not compile alike.  Written between double quotes,
    [mk,xii] becomes the single term [mk ORxii] and [mk OR xii] the single
    term [mk or xii], which differ on a record holding [mk or xii].
    Written bare, [mk,xii] is a parse error while [mk OR xii] and
    [mk, xii] compile to the disjunction of [mk] and [xii]. *)
Theorem comma_expansion_differs :
  parse_search_expression (quoted "mk,xii") = Compiled (SearchTerm "mk ORxii")
  /\ parse_search_expression (quoted "mk OR xii") = Compiled (SearchTerm "mk or xii")
  /\ evaluate (SearchTerm "mk ORxii") [("name", VStr "mk or xii")] = false
  /\ evaluate (SearchTerm "mk or xii") [("name", VStr "mk or xii")] = true
  /\ parse_search_expression "mk,xii" = ParseError
  /\ parse_search_expression "mk OR xii"
     = Compiled (BinaryOperation "or" [SearchTerm "mk"; SearchTerm "xii"])
  /\ parse_search_expression "mk, xii"
     = Compiled (BinaryOperation "or" [SearchTerm "mk"; SearchTerm "xii"]).
Proof. repeat split; vm_compute; reflexivity. Qed.

(** ** The explicit file *)

(** With flags that search, a downloader that returns and a valid type
    selection, a run with [--file] is decided by the file branch. *)
Lemma main_file_branch (args : Args) (w : World) (path : string) :
  searching args = true ->
  downloader_error w = None ->
  selected_types args <> [] ->
  file args = Some path ->
  path <> EmptyString ->
  main args w =
  match search_file args w path empty_matches with
  | inl o => o
  | inr all_matches => Printed all_matches (full args) (negb (no_strip_html args))
  end.
Proof.
  intros Hs Hd Hsel Hf Hp. unfold main, searching in *.
  apply andb_true_iff in Hs as [Hx Hy].
  apply negb_true_iff in Hx. rewrite Hx.
  rewrite Hy. cbn [orb negb andb].
  rewrite andb_false_r. rewrite Hd.
  destruct (selected_types args) as [|t ts]; [contradiction|].
  rewrite Hf. cbn [str_truthy].
  destruct (String.eqb_spec path EmptyString) as [E|_]; [contradiction|].
  reflexivity.
Qed.

(** With a type filter, a file that holds a non-empty list never gets past
    the comparison of the filter, a list, with the detected type, a
    string. *)
Lemma search_file_with_filter (args : Args) (w : World) (path : string)
  (first : record) (rest : list record) (t : string) (ts : list string) m :
  path_exists w path = true ->
  load_json_file w path = Loaded (JList (first :: rest)) ->
  search_type args = Some (t :: ts) ->
  search_file args w path m
  = inl (Returned (MsgFormatMismatch (detect_format first) (t :: ts))).
Proof.
  intros He Hl Ht. unfold search_file. rewrite He, Hl, Ht. reflexivity.
Qed.

(** C9: when the explicit file holds the empty JSON array, [main] reaches
    [data[0]] on the empty list and ends in the uncaught [IndexError]. *)
Theorem empty_array_file_raises_IndexError (args : Args) (w : World)
  (path : string) :
  searching args = true ->
  downloader_error w = None ->
  selected_types args <> [] ->
  file args = Some path ->
  path <> EmptyString ->
  path_exists w path = true ->
  load_json_file w path = Loaded (JList []) ->
  main args w = Raised IndexError.
Proof.
  intros Hs Hd Hsel Hf Hp He Hl.
  rewrite (main_file_branch args w path Hs Hd Hsel Hf Hp).
  unfold search_file. rewrite He, Hl. reflexivity.
Qed.

Lemma empty_array_file_raises_IndexError_witness :
  main (list_file "empty.json" None) (world_with "empty.json" (Loaded (JList [])))
  = Raised IndexError.
Proof.
  apply (empty_array_file_raises_IndexError _ _ "empty.json");
    try reflexivity; discriminate.
Defined.

(** C3 fails as stated: a run on a file of malformed JSON, and a run whose
    type filter [doff] does not fit a file of equipment, both end with
    exit status [0]. *)
Lemma file_errors_exit_zero :
  exit_status (main (list_file "bad.json" None)
                    (world_with "bad.json" JSONDecodeError)) = Some 0%Z
  /\ exit_status (main (list_file "eq.json" (Some ["doff"]))
                       (world_with "eq.json"
                          (Loaded (JList [[("name", VStr "Phaser");
                                           ("head1", VStr "Damage")]]))))
     = Some 0%Z.
Proof. split; reflexivity. Qed.

(** With flags that search and a downloader that returns, a type filter
    that names no known type ends the run before any file is read. *)
Lemma main_no_selected_type (args : Args) (w : World) :
  searching args = true ->
  downloader_error w = None ->
  selected_types args = [] ->
  main args w = Exited 1 MsgNoValidTypes.
Proof.
  intros Hs Hd Hsel. unfold main, searching in *.
  apply andb_true_iff in Hs as [Hx Hy].
  apply negb_true_iff in Hx. rewrite Hx.
  rewrite Hy. cbn [orb negb andb].
  rewrite andb_false_r. rewrite Hd, Hsel. reflexivity.
Qed.

(** C3, as the code has it: in a run with [--file] whose flags search and
    whose downloads return,
    - when the type filter names no known type, [main] exits with status
      [1] before the file is read;
    - otherwise (no filter, or a filter that names a known type), when
      the file does not exist or is malformed JSON, and when the filter is
      not the type detected for the file, [main] prints its message and
      returns: the exit status is [0]. *)
Theorem file_errors_return_normally (args : Args) (w : World) (path : string) :
  searching args = true ->
  downloader_error w = None ->
  file args = Some path ->
  path <> EmptyString ->
  (selected_types args = [] ->
   main args w = Exited 1 MsgNoValidTypes
   /\ exit_status (main args w) = Some 1%Z)
  /\ (selected_types args <> [] ->
      path_exists w path = false ->
      main args w = Returned (MsgFileNotFound path)
      /\ exit_status (main args w) = Some 0%Z)
  /\ (selected_types args <> [] ->
      path_exists w path = true ->
      load_json_file w path = JSONDecodeError ->
      main args w = Returned MsgErrorLoadingJSON
      /\ exit_status (main args w) = Some 0%Z)
  /\ (forall first rest types,
         selected_types args <> [] ->
         path_exists w path = true ->
         load_json_file w path = Loaded (JList (first :: rest)) ->
         search_type args = Some types ->
         types <> [] ->
         types <> [detect_format first] ->
         main args w = Returned (MsgFormatMismatch (detect_format first) types)
         /\ exit_status (main args w) = Some 0%Z).
Proof.
  intros Hs Hd Hf Hp.
  split; [|split; [|split]].
  - intros Hsel. rewrite (main_no_selected_type args w Hs Hd Hsel).
    split; reflexivity.
  - intros Hsel He.
    rewrite (main_file_branch args w path Hs Hd Hsel Hf Hp).
    unfold search_file. rewrite He. split; reflexivity.
  - intros Hsel He Hl.
    rewrite (main_file_branch args w path Hs Hd Hsel Hf Hp).
    unfold search_file. rewrite He, Hl. split; reflexivity.
  - intros first rest types Hsel He Hl Ht Hne _.
    rewrite (main_file_branch args w path Hs Hd Hsel Hf Hp).
    destruct types as [|t ts]; [contradiction|].
    rewrite (search_file_with_filter args w path first rest t ts _ He Hl Ht).
    split; reflexivity.
Qed.

Lemma file_errors_return_normally_witness :
  main (list_file "missing.json" (Some ["ships"]))
       (world_with "other.json" JSONDecodeError)
  = Exited 1 MsgNoValidTypes
  /\ main (list_file "missing.json" None) (world_with "other.json" JSONDecodeError)
     = Returned (MsgFileNotFound "missing.json")
  /\ main (list_file "bad.json" None) (world_with "bad.json" JSONDecodeError)
     = Returned MsgErrorLoadingJSON
  /\ main (list_file "eq.json" (Some ["doff"]))
          (world_with "eq.json"
             (Loaded (JList [[("name", VStr "Phaser"); ("head1", VStr "Damage")]])))
     = Returned (MsgFormatMismatch "equipment" ["doff"]).
Proof.
  split; [|split; [|split]].
  - destruct (file_errors_return_normally
                (list_file "missing.json" (Some ["ships"]))
                (world_with "other.json" JSONDecodeError) "missing.json"
                eq_refl eq_refl eq_refl ltac:(discriminate))
      as [H _].
    exact (proj1 (H eq_refl)).
  - destruct (file_errors_return_normally
                (list_file "missing.json" None)
                (world_with "other.json" JSONDecodeError) "missing.json"
                eq_refl eq_refl eq_refl ltac:(discriminate))
      as [_ [H _]].
    exact (proj1 (H ltac:(discriminate) eq_refl)).
  - destruct (file_errors_return_normally
                (list_file "bad.json" None)
                (world_with "bad.json" JSONDecodeError) "bad.json"
                eq_refl eq_refl eq_refl ltac:(discriminate))
      as [_ [_ [H _]]].
    exact (proj1 (H ltac:(discriminate) eq_refl eq_refl)).
  - destruct (file_errors_return_normally
                (list_file "eq.json" (Some ["doff"]))
                (world_with "eq.json"
                   (Loaded (JList [[("name", VStr "Phaser");
                                    ("head1", VStr "Damage")]])))
                "eq.json"
                eq_refl eq_refl eq_refl ltac:(discriminate))
      as [_ [_ [_ H]]].
    exact (proj1 (H _ _ _ ltac:(discriminate) eq_refl eq_refl eq_refl
                    ltac:(discriminate) ltac:(discriminate))).
Defined.

(** C6: with [--search-type equipment] and a file whose first record is
    detected as [equipment], the filter and the detected type agree, yet
    [main] reports a mismatch and returns without searching: it compares
    the list [['equipment']] with the string ['equipment']. *)
Theorem matching_filter_reported_as_mismatch :
  let first := [("name", VStr "Phaser"); ("head1", VStr "Damage")] in
  detect_format first = "equipment"
  /\ main (list_file "eq.json" (Some ["equipment"]))
          (world_with "eq.json" (Loaded (JList [first])))
     = Returned (MsgFormatMismatch "equipment" ["equipment"])
  /\ main (list_file "eq.json" None)
          (world_with "eq.json" (Loaded (JList [first])))
     = Printed [("equipment", [first]); ("starship_trait", []); ("doff", []);
                ("personal_trait", [])] false true.
Proof. repeat split. Qed.

(** ** The collection loop *)

Lemma append_match_bucket (key : string) (obj : record) (m : matches)
  (l : list record) :
  bucket key m = Some l ->
  exists m', append_match key obj m = Some m'
             /\ bucket key m' = Some (l ++ [obj])%list
             /\ forall k, k <> key -> bucket k m' = bucket k m.
Proof.
  induction m as [|[k0 l0] m IH]; simpl; intros Hb; [discriminate|].
  destruct (String.eqb_spec k0 key) as [->|Hne].
  - injection Hb as ->. eexists. split; [reflexivity|]. split.
    + simpl. rewrite String.eqb_refl. reflexivity.
    + intros k Hk. simpl.
      destruct (String.eqb_spec key k) as [->|_]; [contradiction|reflexivity].
  - destruct (IH Hb) as (m' & Ha & Hb' & Ho). rewrite Ha.
    eexists. split; [reflexivity|]. split.
    + simpl. destruct (String.eqb_spec k0 key); [contradiction|exact Hb'].
    + intros k Hk. simpl. destruct (String.eqb k0 k); [reflexivity|].
      apply Ho, Hk.
Qed.

(** On a bucket that exists the loop never raises; it extends the bucket
    by [appended] and leaves the other buckets alone. *)
Lemma collect_spec (search_tree : option node) (key : string)
  (data : list record) :
  forall (m : matches) (seen : list value) (l : list record),
    bucket key m = Some l ->
    exists m', collect search_tree key data m seen
               = inr (m', seen_after search_tree data seen)
               /\ bucket key m' = Some (l ++ appended search_tree data seen)%list
               /\ forall k, k <> key -> bucket k m' = bucket k m.
Proof.
  induction data as [|obj data IH]; intros m seen l Hb; simpl.
  - exists m. rewrite app_nil_r. auto.
  - destruct (truthy (identifier obj) && negb (set_mem (identifier obj) seen))
      eqn:Hid; simpl.
    + destruct (passes search_tree obj) eqn:Hp.
      * destruct (append_match_bucket key obj m l Hb) as (m1 & Ha & Hb1 & Ho1).
        rewrite Ha.
        destruct (IH m1 (identifier obj :: seen) _ Hb1) as (m' & Hc & Hb' & Ho').
        exists m'. split; [exact Hc|]. split.
        -- rewrite Hb'. rewrite <- app_assoc. reflexivity.
        -- intros k Hk. rewrite (Ho' k Hk). apply Ho1, Hk.
      * apply IH, Hb.
    + apply IH, Hb.
Qed.


(** Whatever is appended comes from the data, has a true identifier that
    was not seen before, and passes the expression. *)
Lemma appended_In (search_tree : option node) (data : list record) :
  forall seen obj,
    In obj (appended search_tree data seen) ->
    In obj data /\ truthy (identifier obj) = true
    /\ set_mem (identifier obj) seen = false
    /\ passes search_tree obj = true.
Proof.
  induction data as [|o data IH]; intros seen obj Hin; simpl in *; [contradiction|].
  destruct (truthy (identifier o)) eqn:Ht; simpl in Hin.
  - destruct (set_mem (identifier o) seen) eqn:Hm; simpl in Hin.
    + destruct (IH _ _ Hin) as (? & ? & ? & ?). auto.
    + destruct (passes search_tree o) eqn:Hp.
      * destruct Hin as [<-|Hin]; [auto|].
        destruct (IH _ _ Hin) as (? & ? & Hs & ?).
        simpl in Hs. apply orb_false_iff in Hs as [_ Hs]. auto.
      * destruct (IH _ _ Hin) as (? & ? & ? & ?). auto.
  - destruct (IH _ _ Hin) as (? & ? & ? & ?). auto.
Qed.


Lemma dict_get_absent (key : string) (obj : record) :
  has_key key obj = false -> dict_get key obj = VNone.
Proof.
  induction obj as [|[k v] obj IH]; simpl; [reflexivity|].
  intros H. apply orb_false_iff in H as [Hk Ho]. rewrite Hk. apply IH, Ho.
Qed.

(** C1, as the code has it: a record with none of the fields [name],
    [doff_specialization], [_pageName] is never appended to the result,
    whatever the search expression and the other records. *)
Theorem no_identity_never_appended (search_tree : option node) (key : string)
  (data : list record) (m : matches) (seen : list value) (l : list record)
  (obj : record) :
  bucket key m = Some l ->
  has_key "name" obj = false ->
  has_key "doff_specialization" obj = false ->
  has_key "_pageName" obj = false ->
  exists m' seen' added,
    collect search_tree key data m seen = inr (m', seen')
    /\ bucket key m' = Some (l ++ added)%list
    /\ ~ In obj added.
Proof.
  intros Hb Hn Hd Hp.
  destruct (collect_spec search_tree key data m seen l Hb) as (m' & Hc & Hb' & _).
  exists m', (seen_after search_tree data seen), (appended search_tree data seen).
  split; [exact Hc|]. split; [exact Hb'|].
  intros Hin. apply appended_In in Hin as (_ & Ht & _).
  unfold identifier in Ht.
  rewrite (dict_get_absent _ _ Hn), (dict_get_absent _ _ Hd),
    (dict_get_absent _ _ Hp) in Ht.
  discriminate.
Qed.

Lemma no_identity_never_appended_witness :
  exists m' seen' added,
    collect None "equipment"
      [[("name", VStr "Phaser")]; [("rarity", VStr "Rare")]] empty_matches []
    = inr (m', seen')
    /\ bucket "equipment" m' = Some ([] ++ added)%list
    /\ ~ In [("rarity", VStr "Rare")] added.
Proof.
  apply (no_identity_never_appended None "equipment" _ empty_matches [] []);
    reflexivity.
Defined.

(** C1 fails as stated: with no search expression, the record whose only
    field is [rarity] lacks the three identity fields and is left out of
    the result, by the loop and by a whole run on a file that holds it. *)
Lemma no_identity_record_dropped :
  let obj := [("rarity", VStr "Rare")] in
  has_key "name" obj = false
  /\ has_key "doff_specialization" obj = false
  /\ has_key "_pageName" obj = false
  /\ passes None obj = true
  /\ collect None "equipment" [obj] empty_matches [] = inr (empty_matches, [])
  /\ main (list_file "eq.json" None)
          (world_with "eq.json"
             (Loaded (JList [[("name", VStr "Phaser"); ("head1", VStr "Damage")];
                             [("rarity", VStr "Rare"); ("head1", VStr "Damage")]])))
     = Printed [("equipment", [[("name", VStr "Phaser"); ("head1", VStr "Damage")]]);
                ("starship_trait", []); ("doff", []); ("personal_trait", [])]
               false true.
Proof. repeat split. Qed.

Lemma seen_after_app (search_tree : option node) (d1 d2 : list record) :
  forall seen,
    seen_after search_tree (d1 ++ d2) seen
    = seen_after search_tree d2 (seen_after search_tree d1 seen).
Proof.
  induction d1 as [|obj d1 IH]; intros seen; simpl; [reflexivity|].
  destruct (truthy (identifier obj) && negb (set_mem (identifier obj) seen)
            && passes search_tree obj); apply IH.
Qed.




(** ** Commas never reach a term *)

Lemma no_comma_app (a b : string) :
  no_comma (a ++ b) = no_comma a && no_comma b.
Proof.
  induction a as [|c a IH]; simpl; [reflexivity|].
  rewrite IH, andb_assoc. reflexivity.
Qed.

Lemma replace_comma_no_comma (new s : string) :
  no_comma new = true -> no_comma (PyStr.replace_comma new s) = true.
Proof.
  intros Hn. induction s as [|c s IH]; simpl; [reflexivity|].
  destruct (Ascii.eqb c ","%char) eqn:Hc.
  - rewrite no_comma_app, Hn, IH. reflexivity.
  - simpl. rewrite Hc, IH. reflexivity.
Qed.

Lemma sub_keyword_from_no_comma (kw : string) (s : string) :
  no_comma kw = true ->
  forall prev skip,
    no_comma s = true -> no_comma (PyStr.sub_keyword_from kw prev skip s) = true.
Proof.
  intros Hk. induction s as [|c s IH]; intros prev skip Hs; simpl; [reflexivity|].
  simpl in Hs. apply andb_true_iff in Hs as [Hc Hs].
  destruct skip as [|k].
  - destruct (negb prev && PyStr.keyword_at kw (String c s)).
    + rewrite no_comma_app, Hk. apply IH, Hs.
    + simpl. rewrite Hc. apply IH, Hs.
  - apply IH, Hs.
Qed.

Lemma spaces_no_comma (n : nat) : no_comma (PyStr.spaces n) = true.
Proof. induction n; simpl; auto. Qed.

Lemma expandtabs_from_no_comma (s : string) :
  forall col, no_comma s = true -> no_comma (PyStr.expandtabs_from col s) = true.
Proof.
  induction s as [|c s IH]; intros col Hs; simpl; [reflexivity|].
  simpl in Hs. apply andb_true_iff in Hs as [Hc Hs].
  destruct (Ascii.eqb c "009"%char).
  - rewrite no_comma_app, spaces_no_comma. apply IH, Hs.
  - destruct (Ascii.eqb c "010"%char || Ascii.eqb c "013"%char);
      simpl; rewrite Hc; apply IH, Hs.
Qed.

Lemma preprocess_no_comma (expr : string) :
  no_comma (PyStr.expandtabs (preprocess expr)) = true.
Proof.
  unfold preprocess, PyStr.expandtabs, PyStr.sub_keyword.
  apply expandtabs_from_no_comma.
  repeat (apply sub_keyword_from_no_comma; [reflexivity|]).
  apply replace_comma_no_comma. reflexivity.
Qed.

Lemma skip_white_no_comma (s : string) :
  no_comma s = true -> no_comma (skip_white s) = true.
Proof.
  induction s as [|c s IH]; simpl; [reflexivity|].
  intros H. destruct (is_white c); [|exact H].
  apply andb_true_iff in H as [_ H]. apply IH, H.
Qed.

Lemma drop_no_comma (n : nat) :
  forall s, no_comma s = true -> no_comma (drop n s) = true.
Proof.
  induction n as [|n IH]; intros [|c s] H; simpl; try exact H.
  simpl in H. apply andb_true_iff in H as [_ H]. apply IH, H.
Qed.

Lemma span_no_comma (f : ascii -> bool) (s : string) :
  no_comma s = true ->
  no_comma (fst (span f s)) = true /\ no_comma (snd (span f s)) = true.
Proof.
  induction s as [|c s IH]; simpl; [auto|].
  intros H. destruct (f c); [|simpl; auto].
  apply andb_true_iff in H as [Hc H].
  destruct (span f s) as [w rest]. simpl in *.
  destruct (IH H) as [Hw Hr]. rewrite Hc, Hw. auto.
Qed.

Lemma quoted_body_no_comma (s : string) :
  forall body rest,
    no_comma s = true -> quoted_body s = Some (body, rest) ->
    no_comma body = true /\ no_comma rest = true.
Proof.
  induction s as [|c s IH]; intros body rest Hs Hq; simpl in *; [discriminate|].
  apply andb_true_iff in Hs as [Hc Hs].
  destruct (Ascii.eqb c dquote).
  - injection Hq as <- <-. auto.
  - destruct (Ascii.eqb c "010"%char || Ascii.eqb c "013"%char); [discriminate|].
    destruct (quoted_body s) as [[b r]|]; [|discriminate].
    injection Hq as <- <-. destruct (IH b r Hs eq_refl) as [Hb Hr].
    simpl. rewrite Hc, Hb. auto.
Qed.

Lemma escape_target_no_comma (c w : ascii) :
  escape_target c = Some w -> Ascii.eqb w ","%char = false.
Proof.
  unfold escape_target.
  repeat match goal with
         | |- context [if ?b then _ else _] => destruct b
         end; intros H; inversion H; reflexivity.
Qed.

Lemma convert_escapes_cons (a : ascii) (r0 : string) :
  convert_escapes (String a r0)
  = if Ascii.eqb a backslash then
      match r0 with
      | String c r =>
          match escape_target c with
          | Some w => String w (convert_escapes r)
          | None => String a (convert_escapes r0)
          end
      | EmptyString => String a EmptyString
      end
    else String a (convert_escapes r0).
Proof. reflexivity. Qed.

Lemma convert_escapes_no_comma (n : nat) :
  forall s, String.length s <= n ->
            no_comma s = true -> no_comma (convert_escapes s) = true.
Proof.
  induction n as [|n IH]; intros s Hl Hs.
  - destruct s; [reflexivity | simpl in Hl; lia].
  - destruct s as [|a r0]; [reflexivity|].
    simpl in Hl.
    assert (Ha : negb (Ascii.eqb a ","%char) = true)
      by (simpl in Hs; apply andb_true_iff in Hs; tauto).
    assert (Hr0 : no_comma r0 = true)
      by (simpl in Hs; apply andb_true_iff in Hs; tauto).
    rewrite convert_escapes_cons.
    destruct (Ascii.eqb a backslash).
    + destruct r0 as [|c r]; [cbn [no_comma]; rewrite Ha; reflexivity|].
      destruct (escape_target c) as [w|] eqn:He.
      * cbn [no_comma]. rewrite (escape_target_no_comma _ _ He).
        cbn [negb andb]. apply IH.
        -- simpl in Hl. lia.
        -- simpl in Hr0. apply andb_true_iff in Hr0. tauto.
      * cbn [no_comma]. rewrite Ha. cbn [andb]. apply IH; [lia|exact Hr0].
    + cbn [no_comma]. rewrite Ha. cbn [andb]. apply IH; [lia|exact Hr0].
Qed.

Lemma keeps_ret {A : Type} (Q : A -> Prop) (a : A) : Q a -> keeps Q (ret a).
Proof. intros Ha s a' rest Hs H. injection H as <- <-. auto. Qed.

Lemma keeps_bind {A B : Type} (Q1 : A -> Prop) (Q2 : B -> Prop)
  (p : parser A) (k : A -> parser B) :
  keeps Q1 p -> (forall a, Q1 a -> keeps Q2 (k a)) -> keeps Q2 (bind p k).
Proof.
  intros Hp Hk s b rest Hs H. unfold bind in H.
  destruct (p s) as [a mid| |] eqn:E; try discriminate.
  destruct (Hp s a mid Hs E) as [Ha Hmid].
  exact (Hk a Ha mid b rest Hmid H).
Qed.

Lemma keeps_alt {A : Type} (Q : A -> Prop) (p q : parser A) :
  keeps Q p -> keeps Q q -> keeps Q (alt p q).
Proof.
  intros Hp Hq s a rest Hs H. unfold alt in H.
  destruct (p s) as [a' r'| |] eqn:E; try discriminate.
  - injection H as <- <-. exact (Hp s a' r' Hs E).
  - exact (Hq s a rest Hs H).
Qed.

Lemma keeps_weaken {A : Type} (Q Q' : A -> Prop) (p : parser A) :
  (forall a, Q a -> Q' a) -> keeps Q p -> keeps Q' p.
Proof.
  intros Hw Hp s a rest Hs H. destruct (Hp s a rest Hs H). auto.
Qed.

Lemma keeps_FollowedBy {A : Type} (p : parser A) :
  keeps (fun _ => True) (FollowedBy p).
Proof.
  intros s a rest Hs H. unfold FollowedBy in H.
  destruct (p s); try discriminate. injection H as _ <-. auto.
Qed.

Lemma keeps_Literal (lit : string) : keeps (fun _ => True) (Literal lit).
Proof.
  intros s a rest Hs H. unfold Literal in H.
  destruct (String.prefix lit (skip_white s)); [|discriminate].
  injection H as _ <-. split; [exact I|].
  apply drop_no_comma, skip_white_no_comma, Hs.
Qed.

Lemma keeps_Word (f : ascii -> bool) : keeps clean_text (Word f).
Proof.
  intros s a rest Hs H. unfold Word in H.
  pose proof (span_no_comma f (skip_white s) (skip_white_no_comma s Hs)) as [Hw Hr].
  destruct (span f (skip_white s)) as [[|c w] r]; [discriminate|].
  injection H as <- <-. auto.
Qed.

Lemma keeps_QuotedString : keeps clean_text QuotedString.
Proof.
  intros s a rest Hs H. unfold QuotedString in H.
  pose proof (skip_white_no_comma s Hs) as Hw.
  destruct (skip_white s) as [|c r]; [discriminate|].
  destruct (Ascii.eqb c dquote); [|discriminate].
  simpl in Hw. apply andb_true_iff in Hw as [_ Hr].
  destruct (quoted_body r) as [[body rest']|] eqn:E; [|discriminate].
  injection H as <- <-.
  destruct (quoted_body_no_comma r body rest' Hr E) as [Hb Hrest].
  split; [|exact Hrest].
  apply (convert_escapes_no_comma (String.length body)); [lia|exact Hb].
Qed.

Lemma keeps_ZeroOrMore {A : Type} (Q : A -> Prop) (p : parser A) (fuel : nat) :
  keeps Q p -> keeps (Forall Q) (ZeroOrMore fuel p).
Proof.
  intros Hp. induction fuel as [|f IH]; intros s l rest Hs H; simpl in H;
    [discriminate|].
  destruct (p s) as [a mid| |] eqn:E; try discriminate.
  - destruct (Hp s a mid Hs E) as [Ha Hmid].
    destruct (ZeroOrMore f p mid) as [l' rest'| |] eqn:E'; try discriminate.
    injection H as <- <-.
    destruct (IH mid l' rest' Hmid E') as [Hl Hr]. auto.
  - injection H as <- <-. auto.
Qed.

Lemma keeps_OneOrMore {A : Type} (Q : A -> Prop) (p : parser A) (fuel : nat) :
  keeps Q p -> keeps (Forall Q) (OneOrMore fuel p).
Proof.
  intros Hp. unfold OneOrMore.
  apply (keeps_bind Q); [exact Hp|]. intros a Ha.
  apply (keeps_bind (Forall Q)); [apply keeps_ZeroOrMore, Hp|]. intros l Hl.
  apply keeps_ret. auto.
Qed.

Lemma keeps_term : keeps clean_tree term.
Proof.
  unfold term. apply (keeps_bind clean_text).
  - apply keeps_alt; [apply keeps_QuotedString|apply keeps_Word].
  - intros t Ht. apply keeps_ret. exact Ht.
Qed.

Lemma keeps_unary_right (op : string) (lastExpr : parser node) :
  keeps clean_tree lastExpr ->
  forall fuel, keeps clean_tree (unary_right fuel op lastExpr).
Proof.
  intros Hl. induction fuel as [|f IH]; simpl.
  - intros s a rest _ H. discriminate.
  - apply keeps_alt; [|exact Hl].
    apply (keeps_bind (fun _ => True)); [apply keeps_FollowedBy|]. intros _ _.
    apply (keeps_bind (fun _ => True)); [apply keeps_Literal|]. intros _ _.
    apply (keeps_bind clean_tree); [exact IH|]. intros x Hx.
    apply keeps_ret. exact Hx.
Qed.

Lemma clean_BinaryOperation_init (first : node) (rest : list (string * node)) :
  clean_tree first ->
  Forall (fun ox => clean_tree (snd ox)) rest ->
  clean_tree (BinaryOperation_init first rest).
Proof.
  intros Hf Hr. unfold clean_tree, BinaryOperation_init in *. simpl.
  rewrite Hf. simpl. apply forallb_forall. intros x Hx.
  apply in_map_iff in Hx as (ox & <- & Hin).
  rewrite Forall_forall in Hr. exact (Hr ox Hin).
Qed.

Lemma keeps_binary_left (fuel : nat) (op : string) (lastExpr : parser node) :
  keeps clean_tree lastExpr -> keeps clean_tree (binary_left fuel op lastExpr).
Proof.
  intros Hl. unfold binary_left. apply keeps_alt; [|exact Hl].
  apply (keeps_bind (fun _ => True)); [apply keeps_FollowedBy|]. intros _ _.
  apply (keeps_bind clean_tree); [exact Hl|]. intros first Hf.
  apply (keeps_bind (Forall (fun ox => clean_tree (snd ox)))).
  - apply keeps_OneOrMore.
    apply (keeps_bind (fun _ => True)); [apply keeps_Literal|]. intros o _.
    apply (keeps_bind clean_tree); [exact Hl|]. intros x Hx.
    apply keeps_ret. exact Hx.
  - intros rest Hr. apply keeps_ret.
    apply clean_BinaryOperation_init; assumption.
Qed.

Lemma keeps_search_expr (fuel : nat) : keeps clean_tree (search_expr fuel).
Proof.
  induction fuel as [|f IH]; simpl.
  - intros s a rest _ H. discriminate.
  - repeat apply keeps_binary_left. apply keeps_unary_right.
    apply keeps_alt; [apply keeps_term|].
    apply (keeps_bind (fun _ => True)); [apply keeps_Literal|]. intros _ _.
    apply (keeps_bind clean_tree); [exact IH|]. intros e He.
    apply (keeps_bind (fun _ => True)); [apply keeps_Literal|]. intros _ _.
    apply keeps_ret. exact He.
Qed.

(** C10, as the code has it: every comma of the raw expression is
    rewritten before the grammar runs, inside double quotes as well, so
    no term of a compiled expression has a comma in its text. *)
Theorem compiled_terms_have_no_comma (expr : string) (tree : node) :
  parse_search_expression expr = Compiled tree ->
  terms_no_comma tree = true.
Proof.
  unfold parse_search_expression, parseString. intros H.
  destruct (bind _ _ _) as [t rest| |] eqn:E; try discriminate.
  injection H as ->.
  refine (proj1 (keeps_bind clean_tree clean_tree _ _ _ _ _ _ _
                   (preprocess_no_comma expr) E)).
  - apply keeps_search_expr.
  - intros e He. apply (keeps_bind (fun _ => True)).
    + intros s a r Hs Hse. unfold StringEnd in Hse.
      destruct (skip_white s); [|discriminate]. injection Hse as _ <-. auto.
    + intros _ _. apply keeps_ret. exact He.
Qed.

Lemma compiled_terms_have_no_comma_witness :
  parse_search_expression (quoted "a,b") = Compiled (SearchTerm "a ORb")
  /\ terms_no_comma (SearchTerm "a ORb") = true.
Proof.
  split; [reflexivity|].
  apply (compiled_terms_have_no_comma (quoted "a,b")). reflexivity.
Defined.

(** C10 fails as stated: the term compiled from [a,b] between double
    quotes has the text [a ORb], not [a OR b]. *)
Lemma quoted_comma_term_text :
  parse_search_expression (quoted "a,b") = Compiled (SearchTerm "a ORb")
  /\ parse_search_expression (quoted "a,b") <> Compiled (SearchTerm "a OR b").
Proof. split; [reflexivity|]. vm_compute. discriminate. Qed.

(** ** The grammar always answers *)

Create HintDb grammar.

Lemma skip_white_length (s : string) :
  String.length (skip_white s) <= String.length s.
Proof.
  induction s as [|c s IH]; simpl; [lia|].
  destruct (is_white c); simpl; lia.
Qed.

Lemma drop_length (n : nat) :
  forall s, String.length (drop n s) = String.length s - n.
Proof.
  induction n as [|n IH]; intros [|c s]; simpl; try reflexivity. apply IH.
Qed.

Lemma prefix_length (p s : string) :
  String.prefix p s = true -> String.length p <= String.length s.
Proof.
  revert s. induction p as [|a p IH]; intros [|c s]; simpl; intros H;
    try lia; try discriminate.
  destruct (ascii_dec a c); [|discriminate]. apply IH in H. lia.
Qed.

Lemma span_length (f : ascii -> bool) (s : string) :
  String.length (fst (span f s)) + String.length (snd (span f s))
  = String.length s.
Proof.
  induction s as [|c s IH]; simpl; [reflexivity|].
  destruct (f c); [|reflexivity].
  destruct (span f s) as [w rest]. simpl in *. lia.
Qed.

Lemma quoted_body_length (s : string) :
  forall body rest,
    quoted_body s = Some (body, rest) -> String.length rest < String.length s.
Proof.
  induction s as [|c s IH]; intros body rest H; simpl in *; [discriminate|].
  destruct (Ascii.eqb c dquote).
  - injection H as _ <-. lia.
  - destruct (Ascii.eqb c "010"%char || Ascii.eqb c "013"%char); [discriminate|].
    destruct (quoted_body s) as [[b r]|]; [|discriminate].
    injection H as _ <-. specialize (IH b r eq_refl). lia.
Qed.

Lemma eats_shrinks {A : Type} (p : parser A) : eats p -> shrinks p.
Proof. intros H s a rest E. apply H in E. lia. Qed.

Lemma shrinks_ret {A : Type} (a : A) : shrinks (ret a).
Proof. intros s a' rest H. injection H as _ <-. lia. Qed.

Lemma shrinks_bind {A B : Type} (p : parser A) (k : A -> parser B) :
  shrinks p -> (forall a, shrinks (k a)) -> shrinks (bind p k).
Proof.
  intros Hp Hk s b rest H. unfold bind in H.
  destruct (p s) as [a mid| |] eqn:E; try discriminate.
  apply Hp in E. apply Hk in H. lia.
Qed.

Lemma eats_bind {A B : Type} (p : parser A) (k : A -> parser B) :
  eats p -> (forall a, shrinks (k a)) -> eats (bind p k).
Proof.
  intros Hp Hk s b rest H. unfold bind in H.
  destruct (p s) as [a mid| |] eqn:E; try discriminate.
  apply Hp in E. apply Hk in H. lia.
Qed.

Lemma shrinks_alt {A : Type} (p q : parser A) :
  shrinks p -> shrinks q -> shrinks (alt p q).
Proof.
  intros Hp Hq s a rest H. unfold alt in H.
  destruct (p s) as [a' r'| |] eqn:E; try discriminate.
  - injection H as <- <-. exact (Hp _ _ _ E).
  - exact (Hq _ _ _ H).
Qed.

Lemma shrinks_FollowedBy {A : Type} (p : parser A) : shrinks (FollowedBy p).
Proof.
  intros s a rest H. unfold FollowedBy in H.
  destruct (p s); try discriminate. injection H as _ <-. lia.
Qed.

Lemma eats_Literal (lit : string) :
  0 < String.length lit -> eats (Literal lit).
Proof.
  intros Hl s a rest H. unfold Literal in H.
  destruct (String.prefix lit (skip_white s)) eqn:E; [|discriminate].
  injection H as _ <-. rewrite drop_length.
  apply prefix_length in E. pose proof (skip_white_length s). lia.
Qed.

Lemma shrinks_Word (f : ascii -> bool) : shrinks (Word f).
Proof.
  intros s a rest H. unfold Word in H.
  pose proof (span_length f (skip_white s)) as Hs.
  pose proof (skip_white_length s).
  destruct (span f (skip_white s)) as [[|c w] r]; [discriminate|].
  injection H as _ <-. simpl in Hs. lia.
Qed.

Lemma shrinks_QuotedString : shrinks QuotedString.
Proof.
  intros s a rest H. unfold QuotedString in H.
  pose proof (skip_white_length s) as Hw.
  destruct (skip_white s) as [|c r]; [discriminate|].
  destruct (Ascii.eqb c dquote); [|discriminate].
  destruct (quoted_body r) as [[body rest']|] eqn:E; [|discriminate].
  injection H as _ <-. apply quoted_body_length in E. simpl in Hw. lia.
Qed.

Lemma shrinks_ZeroOrMore {A : Type} (p : parser A) (fuel : nat) :
  shrinks p -> shrinks (ZeroOrMore fuel p).
Proof.
  intros Hp. induction fuel as [|f IH]; intros s l rest H; simpl in H;
    [discriminate|].
  destruct (p s) as [a mid| |] eqn:E; try discriminate.
  - destruct (ZeroOrMore f p mid) as [l' rest'| |] eqn:E'; try discriminate.
    injection H as _ <-. apply Hp in E. apply IH in E'. lia.
  - injection H as _ <-. lia.
Qed.

#[local] Hint Resolve eats_shrinks shrinks_ret shrinks_bind eats_bind shrinks_alt
  shrinks_FollowedBy shrinks_Word shrinks_QuotedString shrinks_ZeroOrMore
  : grammar.

Lemma eats_op (op : string) : 0 < String.length op -> shrinks (Literal op).
Proof. intros H. apply eats_shrinks, eats_Literal, H. Qed.

Lemma shrinks_OneOrMore {A : Type} (p : parser A) (fuel : nat) :
  shrinks p -> shrinks (OneOrMore fuel p).
Proof. intros Hp. unfold OneOrMore. auto 6 with grammar. Qed.

Lemma shrinks_term : shrinks term.
Proof. unfold term. auto 6 with grammar. Qed.

Lemma shrinks_unary_right (op : string) (lastExpr : parser node) :
  0 < String.length op -> shrinks lastExpr ->
  forall fuel, shrinks (unary_right fuel op lastExpr).
Proof.
  intros Ho Hl. induction fuel as [|f IH]; simpl.
  - intros s a rest H. discriminate.
  - pose proof (eats_op op Ho). auto 8 with grammar.
Qed.

Lemma shrinks_binary_left (fuel : nat) (op : string) (lastExpr : parser node) :
  0 < String.length op -> shrinks lastExpr ->
  shrinks (binary_left fuel op lastExpr).
Proof.
  intros Ho Hl. unfold binary_left. pose proof (eats_op op Ho).
  apply shrinks_alt; [|exact Hl].
  apply shrinks_bind; [apply shrinks_FollowedBy|]. intros _.
  apply shrinks_bind; [exact Hl|]. intros first.
  apply shrinks_bind; [|intros; apply shrinks_ret].
  apply shrinks_OneOrMore. auto 6 with grammar.
Qed.

Lemma shrinks_search_expr (fuel : nat) : shrinks (search_expr fuel).
Proof.
  induction fuel as [|f IH]; simpl.
  - intros s a rest H. discriminate.
  - repeat (apply shrinks_binary_left; [simpl; lia|]).
    apply shrinks_unary_right; [simpl; lia|].
    apply shrinks_alt; [apply shrinks_term|].
    pose proof (eats_op "(" ltac:(simpl; lia)).
    pose proof (eats_op ")" ltac:(simpl; lia)).
    auto 8 with grammar.
Qed.

Lemma runs_le {A : Type} (m n : nat) (p : parser A) :
  m <= n -> runs n p -> runs m p.
Proof. intros Hmn Hp s Hs. apply Hp. lia. Qed.

Lemma runs_ret {A : Type} (n : nat) (a : A) : runs n (ret a).
Proof. intros s _. discriminate. Qed.

Lemma runs_bind {A B : Type} (n : nat) (p : parser A) (k : A -> parser B) :
  runs n p -> shrinks p -> (forall a, runs n (k a)) -> runs n (bind p k).
Proof.
  intros Hp Hs Hk s Hl. unfold bind.
  destruct (p s) as [a mid| |] eqn:E.
  - apply Hk. apply Hs in E. lia.
  - discriminate.
  - exfalso. exact (Hp s Hl E).
Qed.

(** After an element that eats, the continuation only has to run on
    shorter inputs. *)
Lemma runs_bind_eats {A B : Type} (n : nat) (p : parser A) (k : A -> parser B) :
  runs n p -> eats p -> (forall a m, m < n -> runs m (k a)) ->
  runs n (bind p k).
Proof.
  intros Hp He Hk s Hl. unfold bind.
  destruct (p s) as [a mid| |] eqn:E.
  - apply He in E. apply (Hk a (String.length mid)); lia.
  - discriminate.
  - exfalso. exact (Hp s Hl E).
Qed.

Lemma runs_alt {A : Type} (n : nat) (p q : parser A) :
  runs n p -> runs n q -> runs n (alt p q).
Proof.
  intros Hp Hq s Hl. unfold alt.
  destruct (p s) eqn:E; try discriminate.
  - apply Hq, Hl.
  - exfalso. exact (Hp s Hl E).
Qed.

Lemma runs_FollowedBy {A : Type} (n : nat) (p : parser A) :
  runs n p -> runs n (FollowedBy p).
Proof.
  intros Hp s Hl. unfold FollowedBy.
  destruct (p s) eqn:E; try discriminate. exfalso. exact (Hp s Hl E).
Qed.

Lemma runs_Literal (n : nat) (lit : string) : runs n (Literal lit).
Proof.
  intros s _. unfold Literal.
  destruct (String.prefix lit (skip_white s)); discriminate.
Qed.

Lemma runs_Word (n : nat) (f : ascii -> bool) : runs n (Word f).
Proof.
  intros s _. unfold Word.
  destruct (span f (skip_white s)) as [[|c w] r]; discriminate.
Qed.

Lemma runs_QuotedString (n : nat) : runs n QuotedString.
Proof.
  intros s _. unfold QuotedString.
  destruct (skip_white s) as [|c r]; [discriminate|].
  destruct (Ascii.eqb c dquote); [|discriminate].
  destruct (quoted_body r) as [[body rest']|]; discriminate.
Qed.

Lemma runs_StringEnd (n : nat) : runs n StringEnd.
Proof.
  intros s _. unfold StringEnd. destruct (skip_white s); discriminate.
Qed.

Lemma runs_term (n : nat) : runs n term.
Proof.
  unfold term. apply runs_bind.
  - apply runs_alt; [apply runs_QuotedString|apply runs_Word].
  - auto with grammar.
  - intros t. apply runs_ret.
Qed.

Lemma runs_ZeroOrMore {A : Type} (p : parser A) :
  eats p ->
  forall fuel n, n < fuel -> runs n p -> runs n (ZeroOrMore fuel p).
Proof.
  intros He. induction fuel as [|f IH]; intros n Hn Hp s Hl; [lia|].
  simpl. destruct (p s) as [a mid| |] eqn:E.
  - apply He in E.
    assert (Hm : ZeroOrMore f p mid <> PFuel).
    { apply (IH (String.length mid)); [lia| |lia].
      apply (runs_le _ n); [lia|exact Hp]. }
    destruct (ZeroOrMore f p mid); try discriminate. contradiction.
  - discriminate.
  - exfalso. exact (Hp s Hl E).
Qed.

Lemma runs_unary_right (op : string) (lastExpr : parser node) :
  0 < String.length op -> shrinks lastExpr ->
  forall fuel n,
    n < fuel -> runs n lastExpr -> runs n (unary_right fuel op lastExpr).
Proof.
  intros Ho Hs. induction fuel as [|f IH]; intros n Hn Hl; [lia|].
  simpl.
  assert (Hthis : forall m, m < n -> runs m (unary_right f op lastExpr)).
  { intros m Hm. apply IH; [lia|]. apply (runs_le _ n); [lia|exact Hl]. }
  apply runs_alt; [|exact Hl].
  apply runs_bind.
  - apply runs_FollowedBy.
    apply runs_bind_eats; [apply runs_Literal|apply eats_Literal, Ho|].
    intros _ m Hm. apply Hthis, Hm.
  - apply shrinks_FollowedBy.
  - intros _.
    apply runs_bind_eats; [apply runs_Literal|apply eats_Literal, Ho|].
    intros _ m Hm.
    apply runs_bind; [apply Hthis, Hm| |intros; apply runs_ret].
    apply shrinks_unary_right; assumption.
Qed.

Lemma runs_binary_left (fuel : nat) (op : string) (lastExpr : parser node)
  (n : nat) :
  0 < String.length op -> shrinks lastExpr ->
  n < fuel -> runs n lastExpr -> runs n (binary_left fuel op lastExpr).
Proof.
  intros Ho Hs Hn Hl. unfold binary_left.
  pose proof (eats_Literal op Ho) as He.
  assert (Hstep : runs n (o <- Literal op ;; x <- lastExpr ;; ret (o, x))).
  { apply runs_bind; [apply runs_Literal|apply eats_shrinks, He|]. intros o.
    apply runs_bind; [exact Hl|exact Hs|]. intros x. apply runs_ret. }
  assert (Heat : eats (o <- Literal op ;; x <- lastExpr ;; ret (o, x))).
  { apply eats_bind; [exact He|]. auto with grammar. }
  apply runs_alt; [|exact Hl].
  apply runs_bind.
  - apply runs_FollowedBy.
    apply runs_bind; [exact Hl|exact Hs|]. intros _.
    apply runs_bind; [apply runs_Literal|apply eats_shrinks, He|]. intros _.
    exact Hl.
  - apply shrinks_FollowedBy.
  - intros _. apply runs_bind; [exact Hl|exact Hs|]. intros first.
    apply runs_bind; [| |intros; apply runs_ret].
    + unfold OneOrMore.
      apply runs_bind; [exact Hstep|apply eats_shrinks, Heat|]. intros a.
      apply runs_bind; [|apply shrinks_ZeroOrMore, eats_shrinks, Heat
                        |intros; apply runs_ret].
      apply runs_ZeroOrMore; assumption.
    + apply shrinks_OneOrMore, eats_shrinks, Heat.
Qed.

Lemma runs_search_expr :
  forall fuel n, n + 2 <= fuel -> runs n (search_expr fuel).
Proof.
  induction fuel as [|f IH]; intros n Hn; [lia|].
  simpl.
  set (atom := alt term _).
  assert (Hsa : shrinks atom).
  { apply shrinks_alt; [apply shrinks_term|].
    pose proof (eats_op "(" ltac:(simpl; lia)).
    pose proof (eats_op ")" ltac:(simpl; lia)).
    pose proof (shrinks_search_expr f).
    auto 8 with grammar. }
  assert (Hra : runs n atom).
  { apply runs_alt; [apply runs_term|].
    apply runs_bind_eats;
      [apply runs_Literal|apply eats_Literal; simpl; lia|].
    intros _ m Hm.
    apply runs_bind; [apply IH; lia|apply shrinks_search_expr|]. intros e.
    apply runs_bind; [apply runs_Literal
                     |apply eats_op; simpl; lia|intros; apply runs_ret]. }
  assert (Hsn : shrinks (unary_right f "not" atom)).
  { apply shrinks_unary_right; [simpl; lia|exact Hsa]. }
  assert (Hrn : runs n (unary_right f "not" atom)).
  { apply runs_unary_right; [simpl; lia|exact Hsa|lia|exact Hra]. }
  apply runs_binary_left; [simpl; lia| |lia|].
  - apply shrinks_binary_left; [simpl; lia|exact Hsn].
  - apply runs_binary_left; [simpl; lia|exact Hsn|lia|exact Hrn].
Qed.

(** The budget of [parseString] is never exhausted:
    [parse_search_expression] returns a tree or reports a parse error. *)
Theorem parse_search_expression_total (expr : string) :
  parse_search_expression expr <> Unfinished.
Proof.
  unfold parse_search_expression, parseString.
  set (instring := PyStr.expandtabs (preprocess expr)).
  assert (H : runs (String.length instring)
                (e <- search_expr (String.length instring + 2) ;;
                 _ <- StringEnd ;; ret e)).
  { apply runs_bind; [apply runs_search_expr; lia|apply shrinks_search_expr|].
    intros e. apply runs_bind; [apply runs_StringEnd| |intros; apply runs_ret].
    intros s a rest E. unfold StringEnd in E.
    destruct (skip_white s); [|discriminate]. injection E as _ <-. simpl. lia. }
  specialize (H instring (le_n _)).
  destruct (bind _ _ instring); try discriminate. contradiction.
Qed.

Lemma compile_search_in_budget (args : Args) :
  compile_search args <> inl OutOfBudget.
Proof.
  unfold compile_search.
  destruct (str_truthy (search args)); [|discriminate].
  destruct (search args) as [expr|]; [|discriminate].
  pose proof (parse_search_expression_total expr).
  destruct (parse_search_expression expr); try discriminate. contradiction.
Qed.

Lemma search_file_in_budget (args : Args) (w : World) (path : string)
  (m : matches) :
  search_file args w path m <> inl OutOfBudget.
Proof.
  unfold search_file.
  destruct (path_exists w path); [|discriminate]. cbn [negb].
  destruct (load_json_file w path) as [[[|first rest]|]| |]; try discriminate.
  destruct (list_truthy (search_type args) && _); [discriminate|].
  pose proof (compile_search_in_budget args).
  destruct (compile_search args) as [o|tree]; [congruence|].
  destruct (collect _ _ _ _ _) as [e|[m' s']]; discriminate.
Qed.

Lemma search_cache_in_budget (args : Args) (w : World) (dir : string)
  (types : list string) :
  forall m, search_cache args w dir types m <> inl OutOfBudget.
Proof.
  induction types as [|t types IH]; intros m; simpl; [discriminate|].
  destruct (path_exists w (cache_file dir t)); [|apply IH]. cbn [negb].
  destruct (load_json_file w (cache_file dir t)) as [[data|]| |];
    try apply IH; try discriminate.
  pose proof (compile_search_in_budget args).
  destruct (compile_search args) as [o|tree]; [congruence|].
  destruct (collect _ _ _ _ _) as [e|[m' s']]; [discriminate|apply IH].
Qed.

(** Every run of [main] ends with an exit status. *)
Theorem main_exit_status (args : Args) (w : World) :
  exists code, exit_status (main args w) = Some code.
Proof.
  assert (H : main args w <> OutOfBudget).
  { unfold main.
    destruct (str_truthy (search args) && list_all args); [discriminate|].
    destruct (negb _); [discriminate|].
    destruct (force_download args && _).
    - destruct (downloader_error w); discriminate.
    - destruct (downloader_error w); [discriminate|].
      destruct (selected_types args) as [|t ts]; [discriminate|].
      destruct (str_truthy (file args)).
      + destruct (file args) as [path|]; [|discriminate].
        pose proof (search_file_in_budget args w path empty_matches).
        destruct (search_file _ _ _ _); [congruence|discriminate].
      + pose proof (search_cache_in_budget args w
                      (if str_truthy (cache_dir args)
                       then match cache_dir args with
                            | Some d => d
                            | None => default_cache_dir w
                            end
                       else default_cache_dir w) (t :: ts) empty_matches).
        destruct (search_cache _ _ _ _ _); [congruence|discriminate]. }
  destruct (main args w); simpl; eauto. contradiction.
Qed.

(** ** What the collection loop keeps *)

Lemma appended_subseq (search_tree : option node) (data : list record) :
  forall seen, subseq (appended search_tree data seen) data.
Proof.
  induction data as [|obj data IH]; intros seen; simpl; [constructor|].
  destruct (truthy (identifier obj) && negb (set_mem (identifier obj) seen)
            && passes search_tree obj); constructor; apply IH.
Qed.

Lemma py_eq_sym (a b : value) : py_eq a b = py_eq b a.
Proof.
  destruct a as [|x|x|x], b as [|y|y|y]; simpl; try reflexivity.
  - destruct x, y; reflexivity.
  - apply Z.eqb_sym.
  - apply String.eqb_sym.
Qed.

Lemma appended_distinct (search_tree : option node) (data : list record) :
  forall seen,
    ForallOrdPairs distinct_identity (appended search_tree data seen).
Proof.
  induction data as [|obj data IH]; intros seen; simpl; [constructor|].
  destruct (truthy (identifier obj) && negb (set_mem (identifier obj) seen)
            && passes search_tree obj); [|apply IH].
  constructor; [|apply IH].
  apply Forall_forall. intros o Hin.
  apply appended_In in Hin as (_ & _ & Hs & _).
  simpl in Hs. apply orb_false_iff in Hs as [Hs _].
  unfold distinct_identity. rewrite py_eq_sym. exact Hs.
Qed.

Lemma py_eq_refl (v : value) : py_eq v v = true.
Proof.
  destruct v as [|b|z|s]; simpl; try reflexivity.
  - destruct b; reflexivity.
  - apply Z.eqb_refl.
  - apply String.eqb_refl.
Qed.

(** The loop only adds to what was seen. *)
Lemma seen_after_grows (search_tree : option node) (data : list record) :
  forall seen v,
    set_mem v seen = true -> set_mem v (seen_after search_tree data seen) = true.
Proof.
  induction data as [|obj data IH]; intros seen v Hm; simpl; [exact Hm|].
  destruct (truthy (identifier obj) && negb (set_mem (identifier obj) seen)
            && passes search_tree obj); apply IH; [|exact Hm].
  simpl. rewrite Hm. apply orb_true_r.
Qed.

(** An identifier seen at the end was seen at the start or is that of an
    appended record. *)
Lemma seen_after_appended (search_tree : option node) (data : list record) :
  forall seen v,
    set_mem v (seen_after search_tree data seen) = true ->
    set_mem v seen = true
    \/ exists obj, In obj (appended search_tree data seen)
                   /\ py_eq v (identifier obj) = true.
Proof.
  induction data as [|o data IH]; intros seen v Hm; simpl in *; [auto|].
  destruct (truthy (identifier o) && negb (set_mem (identifier o) seen)
            && passes search_tree o).
  - destruct (IH _ _ Hm) as [Hs|(obj & Hin & He)].
    + simpl in Hs. apply orb_true_iff in Hs as [He|Hs]; [|auto].
      right. exists o. split; [left; reflexivity|exact He].
    + right. exists obj. split; [right; exact Hin|exact He].
  - destruct (IH _ _ Hm) as [Hs|(obj & Hin & He)]; [auto|].
    right. exists obj. auto.
Qed.

(** Every record of the data that could be appended has its identifier
    seen at the end. *)
Lemma seen_after_covers (search_tree : option node) (data : list record) :
  forall seen obj,
    In obj data -> truthy (identifier obj) = true ->
    passes search_tree obj = true ->
    set_mem (identifier obj) (seen_after search_tree data seen) = true.
Proof.
  induction data as [|o data IH]; intros seen obj Hin Ht Hp; simpl in *;
    [contradiction|].
  destruct Hin as [->|Hin].
  - rewrite Ht, Hp. destruct (set_mem (identifier obj) seen) eqn:Hm; simpl.
    + apply seen_after_grows, Hm.
    + apply seen_after_grows. simpl. rewrite py_eq_refl. reflexivity.
  - destruct (truthy (identifier o) && negb (set_mem (identifier o) seen)
              && passes search_tree o); apply IH; assumption.
Qed.

Lemma appended_idempotent (search_tree : option node) (data : list record) :
  forall seen,
    appended search_tree (appended search_tree data seen) seen
    = appended search_tree data seen.
Proof.
  induction data as [|obj data IH]; intros seen; simpl; [reflexivity|].
  destruct (truthy (identifier obj) && negb (set_mem (identifier obj) seen)
            && passes search_tree obj) eqn:E; [|apply IH].
  simpl. rewrite E. f_equal. apply IH.
Qed.

(** X1: in a bucket that exists the loop never raises, and what it adds
    is a subsequence of the data in source order, every record of which
    has a true identifier and passes the expression. *)
Theorem collect_stable_and_sound (search_tree : option node) (key : string)
  (data : list record) (m : matches) (seen : list value) (l : list record) :
  bucket key m = Some l ->
  exists m' seen' added,
    collect search_tree key data m seen = inr (m', seen')
    /\ bucket key m' = Some (l ++ added)%list
    /\ (forall k, k <> key -> bucket k m' = bucket k m)
    /\ subseq added data
    /\ Forall (fun obj => truthy (identifier obj) = true
                          /\ passes search_tree obj = true) added.
Proof.
  intros Hb.
  destruct (collect_spec search_tree key data m seen l Hb) as (m' & Hc & Hb' & Ho).
  exists m', (seen_after search_tree data seen), (appended search_tree data seen).
  repeat split; auto.
  - apply appended_subseq.
  - apply Forall_forall. intros obj Hin.
    apply appended_In in Hin as (_ & Ht & _ & Hp). auto.
Qed.

Lemma collect_stable_and_sound_witness :
  exists m' seen' added,
    collect (Some (SearchTerm "rare")) "equipment"
      [foo_common; foo_rare; foo_very_rare] empty_matches []
    = inr (m', seen')
    /\ bucket "equipment" m' = Some ([] ++ added)%list
    /\ (forall k, k <> "equipment" -> bucket k m' = bucket k empty_matches)
    /\ subseq added [foo_common; foo_rare; foo_very_rare]
    /\ Forall (fun obj => truthy (identifier obj) = true
                          /\ passes (Some (SearchTerm "rare")) obj = true) added.
Proof.
  apply (collect_stable_and_sound (Some (SearchTerm "rare")) "equipment"
           [foo_common; foo_rare; foo_very_rare] empty_matches [] []).
  reflexivity.
Defined.

(** X2: no two records the loop adds have the same identifier, and none
    has an identifier that was seen at the start. *)
Theorem collect_identities_distinct (search_tree : option node) (key : string)
  (data : list record) (m : matches) (seen : list value) (l : list record) :
  bucket key m = Some l ->
  exists m' seen' added,
    collect search_tree key data m seen = inr (m', seen')
    /\ bucket key m' = Some (l ++ added)%list
    /\ ForallOrdPairs distinct_identity added
    /\ Forall (fun obj => set_mem (identifier obj) seen = false) added.
Proof.
  intros Hb.
  destruct (collect_spec search_tree key data m seen l Hb) as (m' & Hc & Hb' & _).
  exists m', (seen_after search_tree data seen), (appended search_tree data seen).
  repeat split; auto.
  - apply appended_distinct.
  - apply Forall_forall. intros obj Hin.
    apply appended_In in Hin as (_ & _ & Hs & _). exact Hs.
Qed.

Lemma collect_identities_distinct_witness :
  exists m' seen' added,
    collect None "equipment"
      [foo_common; foo_rare; foo_very_rare] empty_matches []
    = inr (m', seen')
    /\ bucket "equipment" m' = Some ([] ++ added)%list
    /\ ForallOrdPairs distinct_identity added
    /\ Forall (fun obj => set_mem (identifier obj) [] = false) added.
Proof.
  apply (collect_identities_distinct None "equipment"
           [foo_common; foo_rare; foo_very_rare] empty_matches [] []).
  reflexivity.
Defined.

(** X3: nothing that qualifies is lost: for every record of the data
    with a true identifier that passes the expression, a record with the
    same identifier is added, unless that identifier was seen at the
    start. *)
Theorem collect_complete (search_tree : option node) (key : string)
  (data : list record) (m : matches) (seen : list value) (l : list record)
  (obj : record) :
  bucket key m = Some l ->
  In obj data ->
  truthy (identifier obj) = true ->
  passes search_tree obj = true ->
  set_mem (identifier obj) seen = false ->
  exists m' seen' added kept,
    collect search_tree key data m seen = inr (m', seen')
    /\ bucket key m' = Some (l ++ added)%list
    /\ In kept added
    /\ py_eq (identifier obj) (identifier kept) = true.
Proof.
  intros Hb Hin Ht Hp Hs.
  destruct (collect_spec search_tree key data m seen l Hb) as (m' & Hc & Hb' & _).
  pose proof (seen_after_covers search_tree data seen obj Hin Ht Hp) as Hcov.
  apply seen_after_appended in Hcov as [Hcov|(kept & Hk & He)]; [congruence|].
  exists m', (seen_after search_tree data seen),
    (appended search_tree data seen), kept.
  auto.
Qed.

Lemma collect_complete_witness :
  exists m' seen' added kept,
    collect None "equipment"
      [foo_common; foo_rare; foo_very_rare] empty_matches []
    = inr (m', seen')
    /\ bucket "equipment" m' = Some ([] ++ added)%list
    /\ In kept added
    /\ py_eq (identifier foo_very_rare) (identifier kept) = true.
Proof.
  apply (collect_complete None "equipment"
           [foo_common; foo_rare; foo_very_rare] empty_matches [] []);
    try reflexivity.
  simpl. auto.
Defined.

(** X4: collecting is idempotent: run over what it added, from the same
    seen identifiers and into the same bucket, the loop adds the same
    records again. *)
Theorem collect_idempotent (search_tree : option node) (key : string)
  (data : list record) (m : matches) (seen : list value) (l : list record) :
  bucket key m = Some l ->
  exists m1 seen1 added m2 seen2,
    collect search_tree key data m seen = inr (m1, seen1)
    /\ bucket key m1 = Some (l ++ added)%list
    /\ collect search_tree key added m seen = inr (m2, seen2)
    /\ bucket key m2 = Some (l ++ added)%list.
Proof.
  intros Hb.
  destruct (collect_spec search_tree key data m seen l Hb) as (m1 & Hc1 & Hb1 & _).
  destruct (collect_spec search_tree key (appended search_tree data seen)
              m seen l Hb) as (m2 & Hc2 & Hb2 & _).
  rewrite appended_idempotent in Hb2.
  exists m1, (seen_after search_tree data seen), (appended search_tree data seen),
    m2, (seen_after search_tree (appended search_tree data seen) seen).
  auto.
Qed.

Lemma collect_idempotent_witness :
  exists m1 seen1 added m2 seen2,
    collect (Some (SearchTerm "rare")) "doff"
      [foo_common; foo_rare; foo_very_rare] empty_matches [] = inr (m1, seen1)
    /\ bucket "doff" m1 = Some ([] ++ added)%list
    /\ collect (Some (SearchTerm "rare")) "doff" added empty_matches []
       = inr (m2, seen2)
    /\ bucket "doff" m2 = Some ([] ++ added)%list.
Proof.
  apply (collect_idempotent (Some (SearchTerm "rare")) "doff"
           [foo_common; foo_rare; foo_very_rare] empty_matches [] []).
  reflexivity.
Defined.

(** ** Whole runs *)

Lemma bucket_empty_matches (t : string) :
  In t CARGO_TYPES_keys -> bucket t empty_matches = Some [].
Proof.
  simpl. intros [<-|[<-|[<-|[<-|[]]]]]; reflexivity.
Qed.

Lemma selected_types_valid (args : Args) (t : string) :
  In t (selected_types args) -> In t CARGO_TYPES_keys.
Proof. unfold selected_types. intros H. apply filter_In in H. tauto. Qed.

Lemma selected_types_NoDup (args : Args) : NoDup (selected_types args).
Proof.
  unfold selected_types. apply NoDup_filter.
  repeat constructor; simpl; intuition discriminate.
Qed.

(** With flags that search, a downloader that returns, a valid type
    selection and no [--file], a run is decided by the cache branch. *)
Lemma main_cache_branch (args : Args) (w : World) :
  searching args = true ->
  str_truthy (file args) = false ->
  downloader_error w = None ->
  selected_types args <> [] ->
  main args w =
  match search_cache args w (cache_dir_of args w) (selected_types args)
          empty_matches with
  | inl o => o
  | inr all_matches => Printed all_matches (full args) (negb (no_strip_html args))
  end.
Proof.
  intros Hs Hf Hd Hsel. unfold main, searching, cache_dir_of in *.
  apply andb_true_iff in Hs as [Hx Hy].
  apply negb_true_iff in Hx. rewrite Hx.
  rewrite Hy. cbn [orb negb andb].
  rewrite andb_false_r. rewrite Hd, Hf.
  destruct (selected_types args) as [|t ts]; [contradiction|].
  reflexivity.
Qed.

(** The cache branch when the expression compiles (or there is none) and
    no load raises: every type adds what its file contributes. *)
Lemma search_cache_spec (args : Args) (w : World) (dir : string)
  (search_tree : option node) (types : list string) :
  compile_search args = inr search_tree ->
  (forall t, In t types -> cache_raises w dir t = false) ->
  NoDup types ->
  forall m,
    (forall t, In t types -> exists l, bucket t m = Some l) ->
    exists m',
      search_cache args w dir types m = inr m'
      /\ (forall t l, In t types -> bucket t m = Some l ->
                      bucket t m'
                      = Some (l ++ appended search_tree
                                     (cache_contents w dir t) [])%list)
      /\ (forall t, ~ In t types -> bucket t m' = bucket t m).
Proof.
  intros Hc. induction types as [|t types IH]; intros Hr Hnd m Hb.
  - exists m. simpl. split; [reflexivity|]. split; [intros t l []|auto].
  - inversion Hnd as [|? ? Hnotin Hnd']; subst.
    assert (Hr' : forall t', In t' types -> cache_raises w dir t' = false)
      by (intros; apply Hr; right; assumption).
    assert (Hskip :
      cache_contents w dir t = [] ->
      exists m',
        search_cache args w dir types m = inr m'
        /\ (forall t0 l, In t0 (t :: types) -> bucket t0 m = Some l ->
              bucket t0 m'
              = Some (l ++ appended search_tree
                             (cache_contents w dir t0) [])%list)
        /\ (forall t0, ~ In t0 (t :: types) -> bucket t0 m' = bucket t0 m)).
    { intros Hempty.
      destruct (IH Hr' Hnd' m) as (m' & Hs & Hin & Hout).
      { intros; apply Hb; right; assumption. }
      exists m'. split; [exact Hs|]. split.
      - intros t0 l [<-|Ht0] Hl.
        + rewrite (Hout t Hnotin), Hl, Hempty. simpl. rewrite app_nil_r.
          reflexivity.
        + apply Hin; assumption.
      - intros t0 Ht0. apply Hout. intros H. apply Ht0. right. exact H. }
    pose proof (Hr t (or_introl eq_refl)) as Hrt.
    unfold cache_raises in Hrt. simpl.
    destruct (path_exists w (cache_file dir t)) eqn:He; cbn [negb];
      [|apply Hskip; unfold cache_contents; rewrite He; reflexivity].
    destruct (load_json_file w (cache_file dir t)) as [[data|]| |] eqn:Hld;
      try (apply Hskip; unfold cache_contents; rewrite He, Hld; reflexivity);
      [|discriminate].
    rewrite Hc.
    destruct (Hb t (or_introl eq_refl)) as (l0 & Hl0).
    destruct (collect_spec search_tree t data m [] l0 Hl0) as (m1 & Hc1 & Hb1 & Ho1).
    rewrite Hc1.
    destruct (IH Hr' Hnd' m1) as (m' & Hs & Hin & Hout).
    { intros t' Ht'. destruct (Hb t' (or_intror Ht')) as (l' & Hl').
      exists l'. rewrite Ho1; [exact Hl'|]. intros ->. contradiction. }
    exists m'. split; [exact Hs|]. split.
    + intros t0 l [<-|Ht0] Hl.
      * rewrite (Hout t Hnotin), Hb1. rewrite Hl in Hl0.
        injection Hl0 as <-. unfold cache_contents. rewrite He, Hld.
        reflexivity.
      * apply Hin; [exact Ht0|]. rewrite Ho1; [exact Hl|].
        intros ->. contradiction.
    + intros t0 Ht0. rewrite Hout.
      * apply Ho1. intros ->. apply Ht0. left. reflexivity.
      * intros H. apply Ht0. right. exact H.
Qed.

(** X5: a run over the cache whose expression compiles (or that lists
    everything) and whose loads do not raise prints, for every selected
    type, the de-duplicated matches of that type's cache file, and
    nothing for the other types; a missing, malformed or non-list cache
    file contributes no record. *)
Theorem cache_run_result (args : Args) (w : World) (search_tree : option node) :
  searching args = true ->
  str_truthy (file args) = false ->
  downloader_error w = None ->
  selected_types args <> [] ->
  compile_search args = inr search_tree ->
  (forall t, In t (selected_types args) ->
             cache_raises w (cache_dir_of args w) t = false) ->
  exists m,
    main args w = Printed m (full args) (negb (no_strip_html args))
    /\ forall t, In t CARGO_TYPES_keys ->
                 bucket t m
                 = Some (if mem_string t (selected_types args)
                         then appended search_tree
                                (cache_contents w (cache_dir_of args w) t) []
                         else []).
Proof.
  intros Hs Hf Hd Hsel Hc Hr.
  rewrite (main_cache_branch args w Hs Hf Hd Hsel).
  destruct (search_cache_spec args w (cache_dir_of args w) search_tree
              (selected_types args) Hc Hr (selected_types_NoDup args)
              empty_matches) as (m & Hm & Hin & Hout).
  { intros t Ht. exists []. apply bucket_empty_matches.
    apply (selected_types_valid args), Ht. }
  rewrite Hm. exists m. split; [reflexivity|].
  intros t Ht. destruct (mem_string t (selected_types args)) eqn:E.
  - unfold mem_string in E. apply existsb_exists in E as (t' & Ht' & Heq).
    apply String.eqb_eq in Heq. subst t'.
    rewrite (Hin t [] Ht' (bucket_empty_matches t Ht)). reflexivity.
  - rewrite Hout; [apply bucket_empty_matches, Ht|].
    intros H. assert (mem_string t (selected_types args) = true); [|congruence].
    unfold mem_string. apply existsb_exists. exists t.
    split; [exact H|apply String.eqb_refl].
Qed.

Lemma cache_run_result_witness :
  exists m,
    main (search_cached "rare" (Some ["equipment"; "doff"]))
         (world_of_cache
            [("cache/equipment.json",
              Loaded (JList [foo_common; foo_rare; foo_very_rare]));
             ("cache/doff.json", JSONDecodeError)])
    = Printed m false true
    /\ forall t, In t CARGO_TYPES_keys ->
                 bucket t m
                 = Some (if mem_string t ["equipment"; "doff"]
                         then appended (Some (SearchTerm "rare"))
                                (cache_contents
                                   (world_of_cache
                                      [("cache/equipment.json",
                                        Loaded (JList [foo_common; foo_rare;
                                                       foo_very_rare]));
                                       ("cache/doff.json", JSONDecodeError)])
                                   "cache" t) []
                         else []).
Proof.
  apply (cache_run_result
           (search_cached "rare" (Some ["equipment"; "doff"]))
           (world_of_cache
              [("cache/equipment.json",
                Loaded (JList [foo_common; foo_rare; foo_very_rare]));
               ("cache/doff.json", JSONDecodeError)])
           (Some (SearchTerm "rare")));
    try reflexivity; try discriminate.
  intros t [<-|[<-|[]]]; reflexivity.
Defined.

(** The cache branch when the expression does not compile and no load
    raises: the error comes out at the first file that loads as a list. *)
Lemma search_cache_parse_error (args : Args) (w : World) (dir : string)
  (o : outcome) (types : list string) :
  compile_search args = inl o ->
  (forall t, In t types -> cache_raises w dir t = false) ->
  forall m,
    search_cache args w dir types m
    = if existsb (cache_is_list w dir) types then inl o else inr m.
Proof.
  intros Hc. induction types as [|t types IH]; intros Hr m; [reflexivity|].
  assert (Hr' : forall t', In t' types -> cache_raises w dir t' = false)
    by (intros; apply Hr; right; assumption).
  pose proof (Hr t (or_introl eq_refl)) as Hrt.
  unfold cache_raises in Hrt. simpl. unfold cache_is_list at 1.
  destruct (path_exists w (cache_file dir t)); cbn [negb andb orb];
    [|apply IH, Hr'].
  destruct (load_json_file w (cache_file dir t)) as [[data|]| |];
    cbn [orb]; try (apply IH, Hr'); [|discriminate].
  rewrite Hc. reflexivity.
Qed.

(** X6: over the cache, when no load of a selected type's cache file
    raises, an expression that does not parse is reported, with exit
    status 1, exactly when the cache file of some selected type loads as a
    list; when none does (each is malformed JSON or not a list), the run
    prints the empty result and the expression is never parsed. *)
Theorem parse_error_needs_loaded_cache (args : Args) (w : World) (expr : string) :
  searching args = true ->
  str_truthy (file args) = false ->
  downloader_error w = None ->
  selected_types args <> [] ->
  search args = Some expr ->
  expr <> EmptyString ->
  parse_search_expression expr = ParseError ->
  (forall t, In t (selected_types args) ->
             cache_raises w (cache_dir_of args w) t = false) ->
  main args w
  = if existsb (cache_is_list w (cache_dir_of args w)) (selected_types args)
    then Exited 1 MsgParseError
    else Printed empty_matches (full args) (negb (no_strip_html args)).
Proof.
  intros Hs Hf Hd Hsel Hse Hne Hp Hr.
  rewrite (main_cache_branch args w Hs Hf Hd Hsel).
  assert (Hc : compile_search args = inl (Exited 1 MsgParseError)).
  { unfold compile_search. rewrite Hse. cbn [str_truthy].
    destruct (String.eqb_spec expr EmptyString); [contradiction|].
    cbn [negb]. rewrite Hp. reflexivity. }
  rewrite (search_cache_parse_error args w _ _ _ Hc Hr).
  destruct (existsb _ _); reflexivity.
Qed.

Lemma parse_error_needs_loaded_cache_witness :
  main (search_cached "mk and" None)
       (world_of_cache [("cache/equipment.json", JSONDecodeError);
                        ("cache/personal_trait.json", Loaded JOther);
                        ("cache/starship_trait.json", JSONDecodeError);
                        ("cache/doff.json", Loaded JOther)])
  = Printed empty_matches false true
  /\ main (search_cached "mk and" None)
          (world_of_cache [("cache/equipment.json", JSONDecodeError);
                           ("cache/personal_trait.json", Loaded JOther);
                           ("cache/starship_trait.json", JSONDecodeError);
                           ("cache/doff.json", Loaded (JList []))])
     = Exited 1 MsgParseError.
Proof.
  split.
  - apply (parse_error_needs_loaded_cache
             (search_cached "mk and" None)
             (world_of_cache [("cache/equipment.json", JSONDecodeError);
                              ("cache/personal_trait.json", Loaded JOther);
                              ("cache/starship_trait.json", JSONDecodeError);
                              ("cache/doff.json", Loaded JOther)]) "mk and");
      try reflexivity; try discriminate.
    intros t [<-|[<-|[<-|[<-|[]]]]]; reflexivity.
  - apply (parse_error_needs_loaded_cache
             (search_cached "mk and" None)
             (world_of_cache [("cache/equipment.json", JSONDecodeError);
                              ("cache/personal_trait.json", Loaded JOther);
                              ("cache/starship_trait.json", JSONDecodeError);
                              ("cache/doff.json", Loaded (JList []))]) "mk and");
      try reflexivity; try discriminate.
    intros t [<-|[<-|[<-|[<-|[]]]]]; reflexivity.
Defined.

Lemma append_match_missing (key : string) (obj : record) (m : matches) :
  bucket key m = None -> append_match key obj m = None.
Proof.
  induction m as [|[k l] m IH]; simpl; [reflexivity|].
  destruct (String.eqb k key); [discriminate|].
  intros H. rewrite (IH H). reflexivity.
Qed.

(** On a bucket that does not exist the loop raises [KeyError] at the
    first record it would append, and changes nothing when there is
    none. *)
Lemma collect_missing_bucket (search_tree : option node) (key : string)
  (m : matches) (data : list record) :
  bucket key m = None ->
  forall seen,
    collect search_tree key data m seen
    = match appended search_tree data seen with
      | [] => inr (m, seen)
      | _ :: _ => inl (KeyError key)
      end.
Proof.
  intros Hb. induction data as [|obj data IH]; intros seen; simpl;
    [reflexivity|].
  destruct (truthy (identifier obj) && negb (set_mem (identifier obj) seen));
    simpl; [|apply IH].
  destruct (passes search_tree obj); [|apply IH].
  rewrite (append_match_missing key obj m Hb). reflexivity.
Qed.

(** [detect_format] answers with one of the four bucket names or with
    [unknown]. *)
Lemma detect_format_tags (obj : record) :
  In (detect_format obj) CARGO_TYPES_keys \/ detect_format obj = "unknown".
Proof.
  unfold detect_format.
  repeat match goal with
         | |- context [if ?b then _ else _] => destruct b
         end; simpl; auto 6.
Qed.

(** The file branch past its checks: no type filter, a non-empty list, an
    expression that compiles or none. *)
Lemma search_file_collects (args : Args) (w : World) (path : string)
  (first : record) (rest : list record) (search_tree : option node)
  (m : matches) :
  path_exists w path = true ->
  load_json_file w path = Loaded (JList (first :: rest)) ->
  list_truthy (search_type args) = false ->
  compile_search args = inr search_tree ->
  search_file args w path m
  = match collect search_tree (detect_format first) (first :: rest) m [] with
    | inl e => inl (Raised e)
    | inr (all_matches', _) => inr all_matches'
    end.
Proof.
  intros He Hl Ht Hc. unfold search_file. rewrite He, Hl, Ht, Hc. reflexivity.
Qed.

(** X7: a run on an explicit file, without type filter, files every
    match under the type detected for the first record of the file,
    whatever the other records look like, and leaves the other three
    buckets empty. *)
Theorem file_run_result (args : Args) (w : World) (path : string)
  (first : record) (rest : list record) (search_tree : option node) :
  searching args = true ->
  downloader_error w = None ->
  selected_types args <> [] ->
  file args = Some path ->
  path <> EmptyString ->
  path_exists w path = true ->
  load_json_file w path = Loaded (JList (first :: rest)) ->
  list_truthy (search_type args) = false ->
  compile_search args = inr search_tree ->
  In (detect_format first) CARGO_TYPES_keys ->
  exists m,
    main args w = Printed m (full args) (negb (no_strip_html args))
    /\ bucket (detect_format first) m
       = Some (appended search_tree (first :: rest) [])
    /\ forall t, In t CARGO_TYPES_keys -> t <> detect_format first ->
                 bucket t m = Some [].
Proof.
  intros Hs Hd Hsel Hf Hp He Hl Ht Hc Hin.
  rewrite (main_file_branch args w path Hs Hd Hsel Hf Hp).
  rewrite (search_file_collects args w path first rest search_tree _ He Hl Ht Hc).
  destruct (collect_spec search_tree (detect_format first) (first :: rest)
              empty_matches [] [] (bucket_empty_matches _ Hin))
    as (m & Hm & Hb & Ho).
  rewrite Hm. exists m. split; [reflexivity|]. split; [exact Hb|].
  intros t Ht' Hne. rewrite (Ho t Hne). apply bucket_empty_matches, Ht'.
Qed.

Lemma file_run_result_witness :
  exists m,
    main (list_file "mixed.json" None)
         (world_with "mixed.json"
            (Loaded (JList [[("name", VStr "Phaser"); ("head1", VStr "Damage")];
                            [("doff_specialization", VStr "Engineer")]])))
    = Printed m false true
    /\ bucket (detect_format [("name", VStr "Phaser"); ("head1", VStr "Damage")]) m
       = Some (appended None
                 [[("name", VStr "Phaser"); ("head1", VStr "Damage")];
                  [("doff_specialization", VStr "Engineer")]] [])
    /\ forall t, In t CARGO_TYPES_keys ->
                 t <> detect_format [("name", VStr "Phaser"); ("head1", VStr "Damage")] ->
                 bucket t m = Some [].
Proof.
  apply (file_run_result (list_file "mixed.json" None) _ "mixed.json");
    try reflexivity; try discriminate.
  simpl. auto.
Defined.

(** X8: when the first record of an explicit file is of no known type,
    the run ends in an uncaught [KeyError] for [unknown] as soon as one
    record qualifies for the result, and prints the empty result when none
    does. *)
Theorem unknown_file_raises_KeyError (args : Args) (w : World) (path : string)
  (first : record) (rest : list record) (search_tree : option node) :
  searching args = true ->
  downloader_error w = None ->
  selected_types args <> [] ->
  file args = Some path ->
  path <> EmptyString ->
  path_exists w path = true ->
  load_json_file w path = Loaded (JList (first :: rest)) ->
  list_truthy (search_type args) = false ->
  compile_search args = inr search_tree ->
  detect_format first = "unknown" ->
  main args w
  = match appended search_tree (first :: rest) [] with
    | [] => Printed empty_matches (full args) (negb (no_strip_html args))
    | _ :: _ => Raised (KeyError "unknown")
    end.
Proof.
  intros Hs Hd Hsel Hf Hp He Hl Ht Hc Hu.
  rewrite (main_file_branch args w path Hs Hd Hsel Hf Hp).
  rewrite (search_file_collects args w path first rest search_tree _ He Hl Ht Hc).
  rewrite Hu.
  rewrite (collect_missing_bucket search_tree "unknown" empty_matches
             (first :: rest) eq_refl).
  destruct (appended search_tree (first :: rest) []); reflexivity.
Qed.

Lemma unknown_file_raises_KeyError_witness :
  main (list_file "odd.json" None)
       (world_with "odd.json"
          (Loaded (JList [[("name", VStr "Phaser"); ("Head1", VStr "Damage")]])))
  = Raised (KeyError "unknown")
  /\ main (list_file "odd.json" None)
          (world_with "odd.json" (Loaded (JList [[("Head1", VStr "Damage")]])))
     = Printed empty_matches false true.
Proof.
  split.
  - apply (unknown_file_raises_KeyError (list_file "odd.json" None) _ "odd.json"
             [("name", VStr "Phaser"); ("Head1", VStr "Damage")] [] None);
      try reflexivity; discriminate.
  - apply (unknown_file_raises_KeyError (list_file "odd.json" None) _ "odd.json"
             [("Head1", VStr "Damage")] [] None);
      try reflexivity; discriminate.
Defined.

(** ** Evaluation *)

(** Induction on trees, with the operands of a [BinaryOperation] as
    induction hypotheses. *)
Lemma node_induction (P : node -> Prop) :
  (forall t, P (SearchTerm t)) ->
  (forall operator operands,
      Forall P operands -> P (BinaryOperation operator operands)) ->
  (forall operand, P operand -> P (NotOperation operand)) ->
  forall n, P n.
Proof.
  intros Ht Hb Hn.
  fix IH 1. intros [t|operator operands|operand].
  - apply Ht.
  - apply Hb. induction operands as [|o os IHos]; constructor.
    + apply IH.
    + exact IHos.
  - apply Hn, IH.
Qed.

Lemma forallb_ext_Forall {A : Type} (f g : A -> bool) (l : list A) :
  Forall (fun x => f x = g x) l -> forallb f l = forallb g l.
Proof. induction 1 as [|x l Hx _ IH]; simpl; [reflexivity|]. rewrite Hx, IH. reflexivity. Qed.

Lemma existsb_ext_Forall {A : Type} (f g : A -> bool) (l : list A) :
  Forall (fun x => f x = g x) l -> existsb f l = existsb g l.
Proof. induction 1 as [|x l Hx _ IH]; simpl; [reflexivity|]. rewrite Hx, IH. reflexivity. Qed.

Lemma forallb_over_map {A B : Type} (f : B -> bool) (g : A -> B) (l : list A) :
  forallb f (map g l) = forallb (fun x => f (g x)) l.
Proof. induction l as [|x l IH]; simpl; [reflexivity|]. rewrite IH. reflexivity. Qed.

Lemma existsb_over_map {A B : Type} (f : B -> bool) (g : A -> B) (l : list A) :
  existsb f (map g l) = existsb (fun x => f (g x)) l.
Proof. induction l as [|x l IH]; simpl; [reflexivity|]. rewrite IH. reflexivity. Qed.

(** X9: evaluation looks at the values only: two records with the same
    values in the same order, under whatever field names, evaluate alike
    for every tree. *)
Theorem evaluate_ignores_field_names (n : node) (obj obj' : record) :
  map snd obj = map snd obj' ->
  evaluate n obj = evaluate n obj'.
Proof.
  intros Hv. induction n as [t|operator operands IH|operand IH]
                  using node_induction.
  - simpl. revert obj' Hv.
    induction obj as [|[k v] obj IHo]; intros [|[k' v'] obj'] Hv;
      simpl in Hv; try discriminate; [reflexivity|].
    injection Hv as -> Hv. simpl. rewrite (IHo obj' Hv). reflexivity.
  - simpl. rewrite (forallb_ext_Forall _ (fun op => evaluate op obj') _ IH).
    rewrite (existsb_ext_Forall _ (fun op => evaluate op obj') _ IH).
    reflexivity.
  - simpl. rewrite IH. reflexivity.
Qed.

Lemma evaluate_ignores_field_names_witness :
  evaluate (BinaryOperation "and" [SearchTerm "mk"; SearchTerm "rare"]) phaser
  = evaluate (BinaryOperation "and" [SearchTerm "mk"; SearchTerm "rare"])
      [("title", VStr "Phaser Mk XII"); ("grade", VStr "Rare")].
Proof.
  apply evaluate_ignores_field_names. reflexivity.
Defined.

(** X10: a field whose value is [None] is invisible to the search: every
    tree evaluates on a record as on the record without those fields. *)
Theorem evaluate_ignores_none (n : node) (obj : record) :
  evaluate n obj = evaluate n (without_none obj).
Proof.
  induction n as [t|operator operands IH|operand IH] using node_induction.
  - simpl. induction obj as [|[k v] obj IHo]; simpl; [reflexivity|].
    destruct v; simpl; rewrite IHo; reflexivity.
  - simpl.
    rewrite (forallb_ext_Forall _ (fun op => evaluate op (without_none obj)) _ IH).
    rewrite (existsb_ext_Forall _ (fun op => evaluate op (without_none obj)) _ IH).
    reflexivity.
  - simpl. rewrite IH. reflexivity.
Qed.

Lemma lower_char_idempotent (c : ascii) :
  PyStr.lower_char (PyStr.lower_char c) = PyStr.lower_char c.
Proof.
  unfold PyStr.lower_char.
  destruct (PyStr.is_upper c) eqn:E; [|rewrite E; reflexivity].
  unfold PyStr.is_upper, PyStr.in_range in *.
  apply andb_true_iff in E as [E1 E2].
  apply Nat.leb_le in E1. apply Nat.leb_le in E2.
  rewrite nat_ascii_embedding by lia.
  replace (Nat.leb (nat_of_ascii c + 32) 90) with false
    by (symmetry; apply Nat.leb_gt; lia).
  rewrite andb_false_r. reflexivity.
Qed.

Lemma lower_idempotent (s : string) : PyStr.lower (PyStr.lower s) = PyStr.lower s.
Proof.
  induction s as [|c s IH]; simpl; [reflexivity|].
  rewrite lower_char_idempotent, IH. reflexivity.
Qed.

(** X11: matching ignores case: a tree and a record evaluate as the tree
    with its terms in lower case on the record with its strings in lower
    case. *)
Theorem evaluate_ignores_case (n : node) (obj : record) :
  evaluate n obj = evaluate (lower_terms n) (lower_values obj).
Proof.
  induction n as [t|operator operands IH|operand IH] using node_induction.
  - simpl. rewrite lower_idempotent.
    induction obj as [|[k v] obj IHo]; simpl; [reflexivity|].
    rewrite IHo. destruct v as [|b|z|s]; simpl; try reflexivity.
    rewrite lower_idempotent. reflexivity.
  - simpl. rewrite forallb_over_map, existsb_over_map.
    rewrite (forallb_ext_Forall _
               (fun op => evaluate (lower_terms op) (lower_values obj)) _ IH).
    rewrite (existsb_ext_Forall _
               (fun op => evaluate (lower_terms op) (lower_values obj)) _ IH).
    reflexivity.
  - simpl. rewrite IH. reflexivity.
Qed.

(** X12: De Morgan's laws hold for the n-ary operations: the negation of
    a conjunction is the disjunction of the negated operands, and the
    negation of a disjunction their conjunction. *)
Theorem evaluate_de_morgan (operands : list node) (obj : record) :
  evaluate (NotOperation (BinaryOperation "and" operands)) obj
  = evaluate (BinaryOperation "or" (map NotOperation operands)) obj
  /\ evaluate (NotOperation (BinaryOperation "or" operands)) obj
     = evaluate (BinaryOperation "and" (map NotOperation operands)) obj.
Proof.
  simpl. rewrite forallb_over_map, existsb_over_map. split.
  - induction operands as [|o os IH]; simpl; [reflexivity|].
    rewrite negb_andb, IH. reflexivity.
  - induction operands as [|o os IH]; simpl; [reflexivity|].
    rewrite negb_orb, IH. reflexivity.
Qed.

Lemma string_app_assoc (a b c : string) : (a ++ b) ++ c = a ++ b ++ c.
Proof. induction a as [|x a IH]; simpl; [reflexivity|]. rewrite IH. reflexivity. Qed.

Lemma prefix_iff (p s : string) :
  String.prefix p s = true <-> exists q, s = p ++ q.
Proof.
  revert s. induction p as [|a p IH]; intros s.
  - split; [intros _; exists s; reflexivity|destruct s; reflexivity].
  - destruct s as [|c s]; simpl.
    + split; [discriminate|intros [q Hq]; discriminate].
    + destruct (ascii_dec a c) as [->|Hne].
      * rewrite IH. split; intros [q Hq]; exists q; congruence.
      * split; [discriminate|]. intros [q Hq]. congruence.
Qed.

Lemma contains_cons (needle : string) (c : ascii) (hay : string) :
  PyStr.contains needle (String c hay)
  = if String.prefix needle (String c hay) then true
    else PyStr.contains needle hay.
Proof. reflexivity. Qed.

(** [needle in hay] holds exactly when [hay] is some text, [needle], some
    text. *)
Lemma contains_iff (needle hay : string) :
  PyStr.contains needle hay = true <-> exists p q, hay = p ++ needle ++ q.
Proof.
  split.
  - induction hay as [|c hay IH]; intros H.
    + destruct needle as [|a needle]; simpl in H; [|discriminate H].
      exists EmptyString, EmptyString. reflexivity.
    + rewrite contains_cons in H.
      destruct (String.prefix needle (String c hay)) eqn:E.
      * apply prefix_iff in E as [q Hq].
        exists EmptyString, q. exact Hq.
      * destruct (IH H) as (p & q & ->).
        exists (String c p), q. reflexivity.
  - intros (p & q & ->). induction p as [|c p IH].
    + assert (E : String.prefix needle (needle ++ q) = true)
        by (apply prefix_iff; exists q; reflexivity).
      change (EmptyString ++ needle ++ q) with (needle ++ q).
      destruct (needle ++ q) as [|c r].
      * destruct needle; [reflexivity|discriminate E].
      * rewrite contains_cons, E. reflexivity.
    + change (String c p ++ needle ++ q) with (String c (p ++ needle ++ q)).
      rewrite contains_cons.
      destruct (String.prefix needle (String c (p ++ needle ++ q)));
        [reflexivity|exact IH].
Qed.

Lemma contains_trans (a b c : string) :
  PyStr.contains a b = true -> PyStr.contains b c = true ->
  PyStr.contains a c = true.
Proof.
  intros Hab Hbc.
  apply contains_iff in Hab as (p & q & ->).
  apply contains_iff in Hbc as (p' & q' & ->).
  apply contains_iff. exists (p' ++ p), (q ++ q').
  rewrite !string_app_assoc. reflexivity.
Qed.

(** X13: a term contained, case ignored, in a term that matches a record
    matches that record as well. *)
Theorem contained_term_matches (t1 t2 : string) (obj : record) :
  PyStr.contains (PyStr.lower t1) (PyStr.lower t2) = true ->
  evaluate (SearchTerm t2) obj = true ->
  evaluate (SearchTerm t1) obj = true.
Proof.
  intros Hc H. simpl in *.
  apply existsb_exists in H as ([k v] & Hin & Hv).
  apply existsb_exists. exists (k, v). split; [exact Hin|].
  simpl in *. destruct v; try discriminate;
    exact (contains_trans _ _ _ Hc Hv).
Qed.

Lemma contained_term_matches_witness :
  evaluate (SearchTerm "HASE") phaser = true.
Proof.
  apply (contained_term_matches "HASE" "Phaser Mk"); reflexivity.
Defined.

(** ** Compiled trees *)

Lemma yields_ret {A : Type} (Q : A -> Prop) (a : A) : Q a -> yields Q (ret a).
Proof. intros Ha s a' rest H. injection H as <- _. exact Ha. Qed.

Lemma yields_bind {A B : Type} (Q1 : A -> Prop) (Q2 : B -> Prop)
  (p : parser A) (k : A -> parser B) :
  yields Q1 p -> (forall a, Q1 a -> yields Q2 (k a)) -> yields Q2 (bind p k).
Proof.
  intros Hp Hk s b rest H. unfold bind in H.
  destruct (p s) as [a mid| |] eqn:E; try discriminate.
  exact (Hk a (Hp s a mid E) mid b rest H).
Qed.

Lemma yields_alt {A : Type} (Q : A -> Prop) (p q : parser A) :
  yields Q p -> yields Q q -> yields Q (alt p q).
Proof.
  intros Hp Hq s a rest H. unfold alt in H.
  destruct (p s) as [a' r'| |] eqn:E; try discriminate.
  - injection H as <- <-. exact (Hp s a' r' E).
  - exact (Hq s a rest H).
Qed.

Lemma yields_any {A : Type} (p : parser A) : yields (fun _ => True) p.
Proof. intros s a rest _. exact I. Qed.

Lemma yields_Literal (lit : string) : yields (fun o => o = lit) (Literal lit).
Proof.
  intros s a rest H. unfold Literal in H.
  destruct (String.prefix lit (skip_white s)); [|discriminate].
  injection H as <- _. reflexivity.
Qed.

Lemma yields_ZeroOrMore {A : Type} (Q : A -> Prop) (p : parser A) (fuel : nat) :
  yields Q p -> yields (Forall Q) (ZeroOrMore fuel p).
Proof.
  intros Hp. induction fuel as [|f IH]; intros s l rest H; simpl in H;
    [discriminate|].
  destruct (p s) as [a mid| |] eqn:E; try discriminate.
  - destruct (ZeroOrMore f p mid) as [l' rest'| |] eqn:E'; try discriminate.
    injection H as <- _. constructor; [exact (Hp s a mid E)|exact (IH _ _ _ E')].
  - injection H as <- _. constructor.
Qed.

Lemma yields_OneOrMore {A : Type} (Q : A -> Prop) (p : parser A) (fuel : nat) :
  yields Q p ->
  yields (fun l => l <> [] /\ Forall Q l) (OneOrMore fuel p).
Proof.
  intros Hp. unfold OneOrMore.
  apply (yields_bind Q); [exact Hp|]. intros a Ha.
  apply (yields_bind (Forall Q)); [apply yields_ZeroOrMore, Hp|]. intros l Hl.
  apply yields_ret. split; [discriminate|constructor; assumption].
Qed.

Lemma yields_unary_right (op : string) (lastExpr : parser node) :
  yields (fun n => well_formed n = true) lastExpr ->
  forall fuel,
    yields (fun n => well_formed n = true) (unary_right fuel op lastExpr).
Proof.
  intros Hl. induction fuel as [|f IH]; simpl.
  - intros s a rest H. discriminate.
  - apply yields_alt; [|exact Hl].
    apply (yields_bind (fun _ => True)); [apply yields_any|]. intros _ _.
    apply (yields_bind (fun _ => True)); [apply yields_any|]. intros _ _.
    apply (yields_bind (fun n => well_formed n = true)); [exact IH|].
    intros x Hx. apply yields_ret. exact Hx.
Qed.

Lemma yields_binary_left (fuel : nat) (op : string) (lastExpr : parser node) :
  PyStr.lower op = "and" \/ PyStr.lower op = "or" ->
  yields (fun n => well_formed n = true) lastExpr ->
  yields (fun n => well_formed n = true) (binary_left fuel op lastExpr).
Proof.
  intros Hop Hl. unfold binary_left. apply yields_alt; [|exact Hl].
  apply (yields_bind (fun _ => True)); [apply yields_any|]. intros _ _.
  apply (yields_bind (fun n => well_formed n = true)); [exact Hl|].
  intros first Hf.
  apply (yields_bind
           (fun l => l <> []
                     /\ Forall (fun ox => fst ox = op
                                          /\ well_formed (snd ox) = true) l)).
  - apply yields_OneOrMore.
    apply (yields_bind (fun o => o = op)); [apply yields_Literal|].
    intros o ->.
    apply (yields_bind (fun n => well_formed n = true)); [exact Hl|].
    intros x Hx. apply yields_ret. auto.
  - intros rest [Hne Hr]. apply yields_ret.
    destruct rest as [|[o x] rest]; [contradiction|].
    inversion Hr as [|? ? [Ho Hx] Hr']; subst. simpl in *.
    rewrite Hf, Hx.
    assert (Hops : (String.eqb (PyStr.lower o) "and"
                    || String.eqb (PyStr.lower o) "or") = true)
      by (destruct Hop as [-> | ->]; reflexivity).
    rewrite Hops. simpl.
    apply forallb_forall. intros y Hy.
    apply in_map_iff in Hy as (oy & <- & Hin).
    rewrite Forall_forall in Hr'. apply Hr', Hin.
Qed.

Lemma yields_search_expr (fuel : nat) :
  yields (fun n => well_formed n = true) (search_expr fuel).
Proof.
  induction fuel as [|f IH]; simpl.
  - intros s a rest H. discriminate.
  - apply yields_binary_left; [right; reflexivity|].
    apply yields_binary_left; [left; reflexivity|].
    apply yields_unary_right.
    apply yields_alt.
    + unfold term. apply (yields_bind (fun _ => True)); [apply yields_any|].
      intros t _. apply yields_ret. reflexivity.
    + apply (yields_bind (fun _ => True)); [apply yields_any|]. intros _ _.
      apply (yields_bind (fun n => well_formed n = true)); [exact IH|].
      intros e He.
      apply (yields_bind (fun _ => True)); [apply yields_any|]. intros _ _.
      apply yields_ret. exact He.
Qed.

(** X14: every tree [parse_search_expression] returns is built of terms,
    negations and operations [and] / [or] with at least two operands, so
    [BinaryOperation.evaluate] never falls through to its implicit
    [None]. *)
Theorem compiled_tree_well_formed (expr : string) (tree : node) :
  parse_search_expression expr = Compiled tree ->
  well_formed tree = true.
Proof.
  unfold parse_search_expression, parseString. intros H.
  destruct (bind _ _ _) as [t rest| |] eqn:E; try discriminate.
  injection H as ->.
  match type of E with
  | ?p _ = _ => assert (Hy : yields (fun n => well_formed n = true) p)
  end.
  { apply (yields_bind (fun n => well_formed n = true));
      [apply yields_search_expr|].
    intros e He. apply (yields_bind (fun _ => True)); [apply yields_any|].
    intros _ _. apply yields_ret. exact He. }
  exact (Hy _ _ _ E).
Qed.

Lemma compiled_tree_well_formed_witness :
  well_formed
    (BinaryOperation "or"
       [SearchTerm "a";
        BinaryOperation "and" [SearchTerm "b"; NotOperation (SearchTerm "c")];
        SearchTerm "d"]) = true.
Proof.
  apply (compiled_tree_well_formed "a OR b AND NOT c, d"). reflexivity.
Defined.

(** ** Blank expressions *)

Lemma white_cases (c : ascii) :
  is_white c = true ->
  c = " "%char \/ c = "010"%char \/ c = "009"%char \/ c = "013"%char.
Proof.
  unfold is_white. intros H.
  repeat (apply orb_true_iff in H as [H|H]);
    apply Ascii.eqb_eq in H; auto.
Qed.

Lemma skip_white_all_white (s : string) :
  all_white s = true -> skip_white s = EmptyString.
Proof.
  induction s as [|c s IH]; simpl; [reflexivity|].
  intros H. apply andb_true_iff in H as [Hc Hs]. rewrite Hc. apply IH, Hs.
Qed.

Lemma all_white_app (a b : string) :
  all_white (a ++ b) = all_white a && all_white b.
Proof.
  induction a as [|c a IH]; simpl; [reflexivity|].
  rewrite IH, andb_assoc. reflexivity.
Qed.

Lemma replace_comma_all_white (new s : string) :
  all_white s = true -> PyStr.replace_comma new s = s.
Proof.
  induction s as [|c s IH]; simpl; [reflexivity|].
  intros H. apply andb_true_iff in H as [Hc Hs].
  rewrite (IH Hs).
  destruct (white_cases c Hc) as [-> | [-> | [-> | ->]]]; reflexivity.
Qed.

Lemma sub_keyword_from_all_white (k : ascii) (kw' s : string) :
  is_white k = false ->
  all_white s = true ->
  forall prev, PyStr.sub_keyword_from (String k kw') prev 0 s = s.
Proof.
  intros Hk. induction s as [|c s IH]; intros Hs prev; [reflexivity|].
  simpl in Hs. apply andb_true_iff in Hs as [Hc Hs].
  cbn [PyStr.sub_keyword_from PyStr.keyword_at].
  assert (E : Ascii.eqb k (PyStr.lower_char c) = false).
  { destruct (Ascii.eqb_spec k (PyStr.lower_char c)) as [->|]; [|reflexivity].
    destruct (white_cases c Hc) as [-> | [-> | [-> | ->]]]; discriminate Hk. }
  rewrite E. cbn [andb]. rewrite andb_false_r.
  rewrite (IH Hs). reflexivity.
Qed.

Lemma spaces_all_white (n : nat) : all_white (PyStr.spaces n) = true.
Proof. induction n; simpl; auto. Qed.

Lemma expandtabs_from_all_white (s : string) :
  all_white s = true ->
  forall col, all_white (PyStr.expandtabs_from col s) = true.
Proof.
  induction s as [|c s IH]; intros Hs col; simpl; [reflexivity|].
  simpl in Hs. apply andb_true_iff in Hs as [Hc Hs].
  destruct (Ascii.eqb c "009"%char).
  - rewrite all_white_app, spaces_all_white. apply IH, Hs.
  - destruct (Ascii.eqb c "010"%char || Ascii.eqb c "013"%char);
      simpl; rewrite Hc; apply IH, Hs.
Qed.

Lemma preprocess_all_white (expr : string) :
  all_white expr = true -> all_white (PyStr.expandtabs (preprocess expr)) = true.
Proof.
  intros H. unfold preprocess, PyStr.expandtabs, PyStr.sub_keyword.
  rewrite (replace_comma_all_white _ _ H).
  rewrite (sub_keyword_from_all_white "a" "nd" expr eq_refl H).
  rewrite (sub_keyword_from_all_white "o" "r" expr eq_refl H).
  rewrite (sub_keyword_from_all_white "n" "ot" expr eq_refl H).
  apply expandtabs_from_all_white, H.
Qed.

Lemma starves_bind {A B : Type} (p : parser A) (k : A -> parser B) :
  starves p -> starves (bind p k).
Proof.
  intros Hp s b rest Hs H. unfold bind in H.
  destruct (p s) as [a mid| |] eqn:E; try discriminate.
  exact (Hp s a mid Hs E).
Qed.

Lemma starves_alt {A : Type} (p q : parser A) :
  starves p -> starves q -> starves (alt p q).
Proof.
  intros Hp Hq s a rest Hs H. unfold alt in H.
  destruct (p s) as [a' r'| |] eqn:E; try discriminate.
  - exact (Hp s a' r' Hs E).
  - exact (Hq s a rest Hs H).
Qed.

Lemma starves_FollowedBy {A : Type} (p : parser A) :
  starves p -> starves (FollowedBy p).
Proof.
  intros Hp s a rest Hs H. unfold FollowedBy in H.
  destruct (p s) as [a' r'| |] eqn:E; try discriminate.
  exact (Hp s a' r' Hs E).
Qed.

Lemma starves_Literal (c : ascii) (lit : string) : starves (Literal (String c lit)).
Proof.
  intros s a rest Hs H. unfold Literal in H.
  rewrite (skip_white_all_white s Hs) in H. discriminate.
Qed.

Lemma starves_term : starves term.
Proof.
  unfold term. apply starves_bind, starves_alt.
  - intros s a rest Hs H. unfold QuotedString in H.
    rewrite (skip_white_all_white s Hs) in H. discriminate.
  - intros s a rest Hs H. unfold Word in H.
    rewrite (skip_white_all_white s Hs) in H. discriminate.
Qed.

Lemma starves_unary_right (fuel : nat) (c : ascii) (op : string)
  (lastExpr : parser node) :
  starves lastExpr -> starves (unary_right fuel (String c op) lastExpr).
Proof.
  intros Hl. destruct fuel as [|f]; simpl.
  - intros s a rest _ H. discriminate.
  - apply starves_alt; [|exact Hl].
    apply starves_bind, starves_FollowedBy, starves_bind, starves_Literal.
Qed.

Lemma starves_binary_left (fuel : nat) (op : string) (lastExpr : parser node) :
  starves lastExpr -> starves (binary_left fuel op lastExpr).
Proof.
  intros Hl. unfold binary_left. apply starves_alt; [|exact Hl].
  apply starves_bind, starves_FollowedBy, starves_bind, Hl.
Qed.

Lemma starves_search_expr (fuel : nat) : starves (search_expr fuel).
Proof.
  destruct fuel as [|f]; simpl.
  - intros s a rest _ H. discriminate.
  - repeat apply starves_binary_left. apply starves_unary_right.
    apply starves_alt; [apply starves_term|].
    apply starves_bind, starves_Literal.
Qed.

(** X15: an expression of white space only, the empty one included, is
    a parse error. *)
Theorem blank_expression_is_parse_error (expr : string) :
  all_white expr = true ->
  parse_search_expression expr = ParseError.
Proof.
  intros H.
  pose proof (parse_search_expression_total expr) as Ht.
  unfold parse_search_expression, parseString in *.
  destruct (bind _ _ _) as [t rest| |] eqn:E; [|reflexivity|contradiction].
  exfalso.
  refine (starves_bind _ _ (starves_search_expr _) _ _ _
            (preprocess_all_white expr H) E).
Qed.

Lemma blank_expression_is_parse_error_witness :
  parse_search_expression (String " " (String "009" " ")) = ParseError.
Proof.
  apply blank_expression_is_parse_error. reflexivity.
Defined.

(** ** Classification by field names *)

Lemma existsb_on_keys (g : string -> bool) (obj : record) :
  existsb (fun kv => g (fst kv)) obj = true
  <-> exists k, has_key k obj = true /\ g k = true.
Proof.
  split.
  - intros H. apply existsb_exists in H as ([k v] & Hin & Hg).
    exists k. split; [|exact Hg].
    unfold has_key. apply existsb_exists. exists (k, v).
    split; [exact Hin|apply String.eqb_refl].
  - intros (k & Hk & Hg). unfold has_key in Hk.
    apply existsb_exists in Hk as ([k' v] & Hin & He).
    apply String.eqb_eq in He. simpl in He. subst k'.
    apply existsb_exists. exists (k, v). auto.
Qed.

(** X16: the answer of [detect_format] depends on the set of field names
    only, not on their order nor on the values. *)
Theorem detect_format_depends_on_keys (obj obj' : record) :
  (forall k, has_key k obj = has_key k obj') ->
  detect_format obj = detect_format obj'.
Proof.
  intros Hk. unfold detect_format. rewrite !Hk.
  set (g := fun k => PyStr.startswith k "head" || PyStr.startswith k "text"
                     || PyStr.startswith k "subhead").
  assert (E : existsb (fun kv => g (fst kv)) obj
              = existsb (fun kv => g (fst kv)) obj').
  { apply eq_true_iff_eq. rewrite !existsb_on_keys.
    split; intros (k & H1 & H2); exists k; split; congruence. }
  unfold g in E. rewrite E. reflexivity.
Qed.

Lemma detect_format_depends_on_keys_witness :
  detect_format [("name", VStr "Phaser"); ("head1", VStr "Damage")]
  = detect_format [("head1", VNone); ("name", VInt 3); ("head1", VBool true)].
Proof.
  apply detect_format_depends_on_keys.
  intros k. unfold has_key. cbn [existsb fst].
  destruct (String.eqb "name" k), (String.eqb "head1" k); reflexivity.
Defined.

(** ** Downloading *)

Import Downloader.

(** The loop over full pages [pages] followed by a response [r] that ends
    it. *)
Lemma fetch_pages_full (get : string -> response) (c : conf) (r : response)
  (pages : list (list record)) :
  0 < limit c ->
  (r = NotOk \/ exists b, r = Json b /\ List.length b < limit c) ->
  Forall (fun p => List.length p = limit c) pages ->
  forall fuel k acc log,
    List.length pages < fuel ->
    (forall j, j < List.length pages ->
               get (url_of c ((k + j) * limit c)) = Json (nth j pages [])) ->
    get (url_of c ((k + List.length pages) * limit c)) = r ->
    fetch_pages fuel get c (k * limit c) acc log
    = Fetched (acc ++ concat pages ++ last_batch r)%list
              (log ++ page_urls c k (S (List.length pages)))%list.
Proof.
  intros Hlim Hr Hfull.
  induction Hfull as [|p pages Hp Hfull IH]; intros fuel k acc log Hf Hget Hlast.
  - destruct fuel as [|f]; [simpl in Hf; lia|].
    simpl in Hlast. rewrite Nat.add_0_r in Hlast.
    cbn [fetch_pages]. rewrite Hlast.
    unfold page_urls. cbn [List.length seq map concat app].
    destruct Hr as [->|(b & -> & Hb)].
    + simpl. rewrite app_nil_r. reflexivity.
    + destruct b as [|x b]; simpl last_batch.
      * rewrite app_nil_r. reflexivity.
      * apply Nat.ltb_lt in Hb. rewrite Hb. reflexivity.
  - destruct fuel as [|f]; [simpl in Hf; lia|].
    cbn [fetch_pages].
    pose proof (Hget 0 ltac:(simpl; lia)) as H0.
    rewrite Nat.add_0_r in H0. simpl nth in H0. rewrite H0.
    destruct p as [|x p]; [simpl in Hp; lia|].
    replace (Nat.ltb (List.length (x :: p)) (limit c)) with false
      by (symmetry; apply Nat.ltb_ge; lia).
    replace (k * limit c + limit c) with (S k * limit c) by (simpl; lia).
    rewrite (IH f (S k)).
    + unfold page_urls. cbn [List.length seq map concat].
      rewrite <- !app_assoc. reflexivity.
    + simpl in Hf. lia.
    + intros j Hj. specialize (Hget (S j) ltac:(simpl; lia)).
      replace (S k + j) with (k + S j) by lia. exact Hget.
    + replace (S k + List.length pages)
        with (k + List.length ((x :: p) :: pages)) by (cbn [List.length]; lia).
      exact Hlast.
Qed.

Lemma lookup_In (cargo_type : string) (c : conf) (table : list (string * conf)) :
  lookup cargo_type table = Some c -> In (cargo_type, c) table.
Proof.
  induction table as [|[k c'] table IH]; simpl; [discriminate|].
  destruct (String.eqb_spec k cargo_type) as [->|_].
  - intros H. injection H as ->. left. reflexivity.
  - intros H. right. apply IH, H.
Qed.

Lemma CARGO_TYPES_limit_positive (cargo_type : string) (c : conf) :
  lookup cargo_type CARGO_TYPES = Some c -> 0 < limit c.
Proof.
  intros H. apply lookup_In in H.
  assert (E : forallb (fun tc => Nat.ltb 0 (limit (snd tc))) CARGO_TYPES = true)
    by (vm_compute; reflexivity).
  rewrite forallb_forall in E. apply Nat.ltb_lt. exact (E _ H).
Qed.

(** X17: when the cache is not used, [download] asks for the pages at
    offsets [0], [limit], [2 * limit], ... and stops at the first response
    that is not [ok], is empty or is shorter than [limit]; it then writes
    the full pages followed by the short one, also after a failed request:
    a failure on the first page writes the empty list. *)
Theorem download_writes_pages (fuel : nat) (force_download valid : bool)
  (get : string -> response) (cargo_type : string) (c : conf) (r : response)
  (pages : list (list record)) :
  negb force_download && valid = false ->
  lookup cargo_type CARGO_TYPES = Some c ->
  (r = NotOk \/ exists b, r = Json b /\ List.length b < limit c) ->
  Forall (fun p => List.length p = limit c) pages ->
  List.length pages < fuel ->
  (forall j, j < List.length pages ->
             get (url_of c (j * limit c)) = Json (nth j pages [])) ->
  get (url_of c (List.length pages * limit c)) = r ->
  download fuel force_download valid get cargo_type
  = Wrote (concat pages ++ last_batch r)%list
          (page_urls c 0 (S (List.length pages))).
Proof.
  intros Hv Hc Hr Hfull Hf Hget Hlast.
  unfold download. rewrite Hv, Hc.
  pose proof (CARGO_TYPES_limit_positive cargo_type c Hc) as Hlim.
  change 0 with (0 * limit c) at 1.
  rewrite (fetch_pages_full get c r pages Hlim Hr Hfull fuel 0 [] []); auto.
Qed.

Lemma download_writes_pages_witness :
  (exists c, lookup "doff" CARGO_TYPES = Some c
             /\ download 1 true true (fun _ => NotOk) "doff"
                = Wrote [] (page_urls c 0 1))
  /\ (exists c, lookup "equipment" CARGO_TYPES = Some c
                /\ download 1 false false
                     (fun _ => Json [foo_common; foo_rare]) "equipment"
                   = Wrote [foo_common; foo_rare] (page_urls c 0 1)).
Proof.
  split.
  - eexists. split; [reflexivity|].
    apply (download_writes_pages 1 true true (fun _ => NotOk) "doff" _ NotOk []);
      try reflexivity; auto.
    intros j Hj. simpl in Hj. lia.
  - eexists. split; [reflexivity|].
    apply (download_writes_pages 1 false false
             (fun _ => Json [foo_common; foo_rare]) "equipment" _
             (Json [foo_common; foo_rare]) []);
      try reflexivity; auto.
    + right. eexists. split; [reflexivity|].
      apply Nat.ltb_lt. vm_compute. reflexivity.
    + intros j Hj. simpl in Hj. lia.
Defined.

(** The loop against a server that answers the request for [offset] with
    the records [offset], ..., [offset + limit - 1] of [data]. *)
Lemma fetch_pages_slices (get : string -> response) (c : conf)
  (data : list record) :
  0 < limit c ->
  (forall k, k * limit c <= List.length data ->
             get (url_of c (k * limit c))
             = Json (firstn (limit c) (skipn (k * limit c) data))) ->
  forall fuel k acc log,
    k * limit c <= List.length data ->
    List.length data - k * limit c < fuel * limit c ->
    exists log',
      fetch_pages fuel get c (k * limit c) acc log
      = Fetched (acc ++ skipn (k * limit c) data)%list log'.
Proof.
  intros Hlim Hget. induction fuel as [|f IH]; intros k acc log Hk Hf;
    [simpl in Hf; lia|].
  cbn [fetch_pages]. rewrite (Hget k Hk).
  set (rest := skipn (k * limit c) data).
  assert (Hrest : List.length rest = List.length data - k * limit c)
    by (unfold rest; apply length_skipn).
  destruct (firstn (limit c) rest) as [|x batch] eqn:E.
  - assert (Hnil : rest = []).
    { destruct rest as [|y rest']; [reflexivity|].
      destruct (limit c); [lia|discriminate E]. }
    rewrite Hnil, app_nil_r. eexists. reflexivity.
  - rewrite <- E.
    destruct (Nat.ltb (List.length (firstn (limit c) rest)) (limit c)) eqn:Hlt.
    + apply Nat.ltb_lt in Hlt. rewrite length_firstn in Hlt.
      rewrite firstn_all2 by lia. eexists. reflexivity.
    + apply Nat.ltb_ge in Hlt. rewrite length_firstn in Hlt.
      replace (k * limit c + limit c) with (S k * limit c) by (simpl; lia).
      destruct (IH (S k) (acc ++ firstn (limit c) rest)%list
                  (log ++ [url_of c (k * limit c)])%list) as [log' Hlog].
      * simpl. lia.
      * simpl. simpl in Hf. lia.
      * exists log'. rewrite Hlog. rewrite <- app_assoc. f_equal. f_equal.
        replace (S k * limit c) with (limit c + k * limit c) by (simpl; lia).
        rewrite <- skipn_skipn. fold rest. apply firstn_skipn.
Qed.

(** X18: against a server that pages through a list of records, [limit]
    at a time, a download that does not use the cache writes exactly that
    list, whatever its length. *)
Theorem download_collects_all_pages (fuel : nat) (force_download valid : bool)
  (get : string -> response) (cargo_type : string) (c : conf)
  (data : list record) :
  negb force_download && valid = false ->
  lookup cargo_type CARGO_TYPES = Some c ->
  (forall k, k * limit c <= List.length data ->
             get (url_of c (k * limit c))
             = Json (firstn (limit c) (skipn (k * limit c) data))) ->
  List.length data < fuel * limit c ->
  exists log,
    download fuel force_download valid get cargo_type = Wrote data log.
Proof.
  intros Hv Hc Hget Hf. unfold download. rewrite Hv, Hc.
  pose proof (CARGO_TYPES_limit_positive cargo_type c Hc) as Hlim.
  destruct (fetch_pages_slices get c data Hlim Hget fuel 0 [] [])
    as [log Hlog]; [simpl; lia|simpl; lia|].
  change (0 * limit c) with 0 in Hlog. rewrite Hlog.
  exists log. reflexivity.
Qed.

Lemma download_collects_all_pages_witness :
  exists log,
    download 1 true false (fun _ => Json [foo_common; foo_rare; foo_very_rare])
      "personal_trait"
    = Wrote [foo_common; foo_rare; foo_very_rare] log.
Proof.
  eapply (download_collects_all_pages 1 true false _ "personal_trait");
    try reflexivity.
  - intros [|k] Hk; [reflexivity|].
    exfalso. cbn [List.length limit] in Hk.
    assert (H : 2500 <= S k * 2500) by (apply Nat.le_add_r).
    assert (H3 : 3 < 2500) by (apply Nat.ltb_lt; vm_compute; reflexivity).
    lia.
  - apply Nat.ltb_lt. vm_compute. reflexivity.
Defined.

(** ** Formatting text *)

Import Format.

Lemma has_char_app (c : ascii) (a b : string) :
  has_char c (a ++ b) = has_char c a || has_char c b.
Proof.
  induction a as [|x a IH]; simpl; [reflexivity|].
  rewrite IH, orb_assoc. reflexivity.
Qed.

Lemma split_not_nil (sep : ascii) (s : string) : split sep s <> [].
Proof.
  destruct s as [|c r]; simpl; [discriminate|].
  destruct (Ascii.eqb c sep); [discriminate|].
  destruct (split sep r); discriminate.
Qed.

(** No part of a split holds the separator. *)
Lemma split_parts_clean (sep : ascii) (s : string) :
  Forall (fun p => has_char sep p = false) (split sep s).
Proof.
  induction s as [|c r IH]; simpl.
  - constructor; [reflexivity|constructor].
  - destruct (Ascii.eqb c sep) eqn:E.
    + constructor; [reflexivity|exact IH].
    + destruct (split sep r) as [|h t].
      * constructor; [simpl; rewrite E; reflexivity|constructor].
      * inversion IH; subst. constructor; [|assumption].
        simpl. rewrite E. assumption.
Qed.

(** Splitting what was joined gives the parts back, when there is a part
    and no part holds the separator. *)
Lemma split_join (sep : ascii) (parts : list string) :
  parts <> [] ->
  Forall (fun p => has_char sep p = false) parts ->
  split sep (join sep parts) = parts.
Proof.
  intros Hne Hclean. induction Hclean as [|p rest Hp Hrest IH]; [contradiction|].
  clear Hne. destruct rest as [|q rest].
  - simpl. clear IH Hrest.
    induction p as [|c p IHp]; simpl; [reflexivity|].
    simpl in Hp. apply orb_false_iff in Hp as [Hc Hp].
    rewrite Hc, (IHp Hp). reflexivity.
  - specialize (IH ltac:(discriminate)).
    change (join sep (p :: q :: rest))
      with (p ++ String sep (join sep (q :: rest))).
    induction p as [|c p IHp].
    + change (split sep (String sep (join sep (q :: rest)))
              = EmptyString :: q :: rest).
      cbn [split]. rewrite Ascii.eqb_refl, IH. reflexivity.
    + simpl in Hp. apply orb_false_iff in Hp as [Hc Hp].
      change (String c p ++ String sep (join sep (q :: rest)))
        with (String c (p ++ String sep (join sep (q :: rest)))).
      cbn [split]. rewrite Hc, (IHp Hp). reflexivity.
Qed.

Lemma lstrip_clean (c : ascii) (s : string) :
  has_char c s = false -> has_char c (lstrip s) = false.
Proof.
  induction s as [|x s IH]; simpl; [reflexivity|].
  intros H. destruct (is_space x); [|exact H].
  apply orb_false_iff in H as [_ H]. apply IH, H.
Qed.

Lemma rstrip_clean (c : ascii) (s : string) :
  has_char c s = false -> has_char c (rstrip s) = false.
Proof.
  induction s as [|x s IH]; simpl; [reflexivity|].
  intros H. apply orb_false_iff in H as [Hx H]. specialize (IH H).
  destruct (rstrip s) as [|y r'].
  - destruct (is_space x); simpl; [reflexivity|rewrite Hx; reflexivity].
  - simpl. rewrite Hx. exact IH.
Qed.

Lemma strip_clean (c : ascii) (s : string) :
  has_char c s = false -> has_char c (strip s) = false.
Proof. intros H. apply rstrip_clean, lstrip_clean, H. Qed.

Lemma split_once_clean (c sep : ascii) (s : string) :
  has_char c s = false ->
  has_char c (fst (split_once sep s)) = false
  /\ has_char c (snd (split_once sep s)) = false.
Proof.
  induction s as [|x s IH]; simpl; [auto|].
  intros H. apply orb_false_iff in H as [Hx H].
  destruct (Ascii.eqb x sep); [simpl; auto|].
  destruct (split_once sep s) as [a b]. simpl in *.
  destruct (IH H) as [Ha Hb]. rewrite Hx. auto.
Qed.

Lemma tabs_clean (n : nat) : has_char newline (tabs n) = false.
Proof. induction n; simpl; auto. Qed.

Lemma format_line_clean (n : nat) (line : string) :
  has_char newline line = false ->
  has_char newline (format_line n line) = false.
Proof.
  intros H. unfold format_line.
  destruct (has_char ":"%char line).
  - pose proof (split_once_clean newline ":"%char line H) as [Ha Hb].
    destruct (split_once ":"%char line) as [before after]. simpl in Ha, Hb.
    rewrite !has_char_app, tabs_clean, (strip_clean _ _ Ha). simpl.
    apply strip_clean, Hb.
  - rewrite has_char_app, tabs_clean. apply strip_clean, H.
Qed.

(** X19: [format_text_with_indent] keeps the line structure of the text
    it formats: its result splits into as many lines as that text, and
    each is the corresponding line, formatted. *)
Theorem format_keeps_lines (strip_html_tags : string -> string)
  (text : string) (indent_level : nat) (strip_html : bool) :
  split newline
    (format_text_with_indent strip_html_tags text indent_level strip_html)
  = map (format_line indent_level)
        (split newline (if strip_html then strip_html_tags text else text)).
Proof.
  unfold format_text_with_indent.
  set (text' := if strip_html then strip_html_tags text else text).
  apply split_join.
  - pose proof (split_not_nil newline text').
    destruct (split newline text'); [contradiction|discriminate].
  - apply Forall_map.
    eapply Forall_impl; [|apply split_parts_clean].
    intros line Hl. apply format_line_clean, Hl.
Qed.

(** ** Section fields and the classifier *)

Lemma strip_prefix_nocase_prefix (p k rest : string) :
  strip_prefix_nocase p k = Some rest ->
  String.prefix p (PyStr.lower k) = true.
Proof.
  revert k. induction p as [|a p IH]; intros k H.
  - destruct (PyStr.lower k); reflexivity.
  - destruct k as [|c k]; simpl in H; [discriminate|].
    destruct (Ascii.eqb_spec a (PyStr.lower_char c)) as [->|]; [|discriminate].
    simpl. destruct (ascii_dec (PyStr.lower_char c) (PyStr.lower_char c));
      [|contradiction].
    apply IH, H.
Qed.

Lemma equipment_field_prefix (k g d : string) :
  equipment_field k = Some (g, d) ->
  (g = "head" \/ g = "subhead" \/ g = "text")
  /\ String.prefix g (PyStr.lower k) = true.
Proof.
  unfold equipment_field. intros H.
  destruct (strip_prefix_nocase "head" k) as [r1|] eqn:E1.
  - destruct (digits_then_end r1).
    + injection H as <- _. split; [auto|].
      exact (strip_prefix_nocase_prefix _ _ _ E1).
    + destruct (strip_prefix_nocase "subhead" k) as [r2|] eqn:E2.
      * destruct (digits_then_end r2).
        -- injection H as <- _. split; [auto|].
           exact (strip_prefix_nocase_prefix _ _ _ E2).
        -- destruct (strip_prefix_nocase "text" k) as [r3|] eqn:E3;
             [|discriminate].
           destruct (digits_then_end r3); [|discriminate].
           injection H as <- _. split; [auto|].
           exact (strip_prefix_nocase_prefix _ _ _ E3).
      * destruct (strip_prefix_nocase "text" k) as [r3|] eqn:E3;
          [|discriminate].
        destruct (digits_then_end r3); [|discriminate].
        injection H as <- _. split; [auto|].
        exact (strip_prefix_nocase_prefix _ _ _ E3).
  - destruct (strip_prefix_nocase "subhead" k) as [r2|] eqn:E2.
    + destruct (digits_then_end r2).
      * injection H as <- _. split; [auto|].
        exact (strip_prefix_nocase_prefix _ _ _ E2).
      * destruct (strip_prefix_nocase "text" k) as [r3|] eqn:E3;
          [|discriminate].
        destruct (digits_then_end r3); [|discriminate].
        injection H as <- _. split; [auto|].
        exact (strip_prefix_nocase_prefix _ _ _ E3).
    + destruct (strip_prefix_nocase "text" k) as [r3|] eqn:E3;
        [|discriminate].
      destruct (digits_then_end r3); [|discriminate].
      injection H as <- _. split; [auto|].
      exact (strip_prefix_nocase_prefix _ _ _ E3).
Qed.

(** X20: a record that passes the three earlier tests of [detect_format]
    and has a field, written in lower case, that [print_equipment] would
    print as a section field ([head], [subhead] or [text] followed by
    digits) is classified as [equipment]. *)
Theorem section_field_means_equipment (obj : record) (k : string) (v : value)
  (g d : string) :
  In (k, v) obj ->
  PyStr.lower k = k ->
  equipment_field k = Some (g, d) ->
  has_key "doff_specialization" obj = false ->
  has_key "basic" obj || has_key "detailed" obj || has_key "obtained" obj = false ->
  has_key "chartype" obj && has_key "environment" obj = false ->
  detect_format obj = "equipment".
Proof.
  intros Hin Hlow Hf Hd Hs Hp.
  apply equipment_field_prefix in Hf as [Hg Hpre]. rewrite Hlow in Hpre.
  unfold detect_format. rewrite Hd, Hs, Hp.
  replace (existsb _ obj) with true; [reflexivity|].
  symmetry. apply existsb_exists. exists (k, v). split; [exact Hin|].
  unfold PyStr.startswith. cbn [fst].
  destruct Hg as [-> | [-> | ->]]; rewrite Hpre;
    rewrite ?orb_true_r; reflexivity.
Qed.

Lemma section_field_means_equipment_witness :
  detect_format [("name", VStr "Phaser"); ("text12", VStr "Damage")]
  = "equipment".
Proof.
  apply (section_field_means_equipment _ "text12" (VStr "Damage") "text" "12");
    try reflexivity.
  simpl. auto.
Defined.

(** ** Type selection and the grammar's answer *)

Lemma filter_none {A : Type} (f : A -> bool) (l : list A) :
  (forall x, In x l -> f x = false) -> filter f l = [].
Proof.
  induction l as [|x l IH]; intros H; simpl; [reflexivity|].
  rewrite (H x (or_introl eq_refl)). apply IH.
  intros y Hy. apply H. right. exact Hy.
Qed.

(** X21: when [--search-type] names no known type, a run that would
    search exits with status 1 before it looks at any file, with [--file]
    or without. *)
Theorem no_valid_type_exits (args : Args) (w : World) (types : list string) :
  searching args = true ->
  downloader_error w = None ->
  search_type args = Some types ->
  types <> [] ->
  (forall t, In t types -> ~ In t CARGO_TYPES_keys) ->
  main args w = Exited 1 MsgNoValidTypes.
Proof.
  intros Hs Hd Ht Hne Hbad. unfold main, searching in *.
  apply andb_true_iff in Hs as [Hx Hy].
  apply negb_true_iff in Hx. rewrite Hx.
  rewrite Hy. cbn [orb negb andb].
  rewrite andb_false_r. rewrite Hd.
  assert (E : selected_types args = []).
  { unfold selected_types. rewrite Ht.
    destruct types as [|t0 ts]; [contradiction|]. cbn [list_truthy].
    apply filter_none.
    intros t Hin. unfold mem_string.
    destruct (existsb (String.eqb t) (t0 :: ts)) eqn:Ex; [|reflexivity].
    apply existsb_exists in Ex as (t' & Ht' & He).
    apply String.eqb_eq in He. subst t'.
    exfalso. exact (Hbad t Ht' Hin). }
  rewrite E. reflexivity.
Qed.

Lemma no_valid_type_exits_witness :
  main (list_file "eq.json" (Some ["ships"; "Equipment"]))
       (world_with "eq.json" (Loaded (JList [])))
  = Exited 1 MsgNoValidTypes.
Proof.
  apply (no_valid_type_exits _ _ ["ships"; "Equipment"]);
    try reflexivity; try discriminate.
  intros t [<-|[<-|[]]] H; simpl in H;
    repeat (destruct H as [H|H]; [discriminate H|]); exact H.
Defined.

